(** * Asynchronous-operation tracking: futures storage, task manager, retrieval

    A shallow embedding of
    - [training/storage/futures.py]  (class [FuturesStorage]),
    - [training/core/task_manager.py] (class [TaskManager]),
    - [training/routers/futures.py]  (endpoints [retrieve_future] and
      [cleanup_futures]),
    - [training/utils/auth.py] (class [APIKeyAuth]),
    - [training/storage/metadata.py] (class [MetadataStorage]),
    - [training/services/checkpoint_service.py] (class [CheckpointService]),
    followed by the properties the specification states about them and by
    further properties of the code.

    Conventions of the embedding.
    - Python values that travel through the store (payloads, results) are
      JSON values: [None], booleans, integers, strings, lists and dicts with
      string keys.  Floats are not modelled.  A Pydantic model is identified
      with the dict its [model_dump()] returns.
    - A timestamp is the number of microseconds since the epoch.  The source
      keeps [datetime.isoformat()] texts and compares them as strings; for
      four-digit years that order is the order of the instants.
    - The clock ([datetime.utcnow()], [time.time()]) is an explicit argument
      of every function that reads it.
    - The SQLite table [futures] is a finite map from its primary key to its
      rows.  Whether the database answers is an input too: [db_ok = false]
      makes the first database access of the call raise [sqlite3_Error].
    - Logging is omitted. *)

From Stdlib Require Import Ascii ZArith String List Bool Lia.
From stdpp Require Import base option gmap strings list fin_maps sorting pretty.

Local Open Scope string_scope.
Local Open Scope Z_scope.
Local Set Warnings "-register-all,-clear-no-such-hyp".

(** ** Python values *)

Inductive json : Type :=
| JNull
| JBool (b : bool)
| JNum (n : Z)
| JStr (s : string)
| JArr (items : list json)
| JObj (fields : list (string * json)).

(** Truth value of a Python object, as tested by [if x], [not x], [x or y]. *)
Definition truthy (v : json) : bool :=
  match v with
  | JNull => false
  | JBool b => b
  | JNum n => negb (n =? 0)
  | JStr s => negb (String.eqb s EmptyString)
  | JArr items => match items with [] => false | _ => true end
  | JObj fields => match fields with [] => false | _ => true end
  end.

(** [x or y] *)
Definition py_or (x y : json) : json := if truthy x then x else y.

(** [x is None] *)
Definition is_None (v : json) : bool :=
  match v with JNull => true | _ => false end.

(** [isinstance(x, dict)] *)
Definition is_dict (v : json) : bool :=
  match v with JObj _ => true | _ => false end.

(** A dict is kept as its items in insertion order; a key occurs once. *)
Definition pydict : Type := list (string * json).

(** [d.get(k)] as an option: [None] when the key is missing. *)
Fixpoint dict_lookup (k : string) (d : pydict) : option json :=
  match d with
  | [] => None
  | (k', v) :: rest => if String.eqb k k' then Some v else dict_lookup k rest
  end.

(** [k in d] *)
Definition dict_has (k : string) (d : pydict) : bool :=
  match dict_lookup k d with Some _ => true | None => false end.

(** [d.get(k, default)] *)
Definition dict_get (k : string) (default : json) (d : pydict) : json :=
  match dict_lookup k d with Some v => v | None => default end.

(** [x == "literal"] for a string literal: false for every non-string. *)
Definition eq_str (v : json) (s : string) : bool :=
  match v with JStr s' => String.eqb s' s | _ => false end.

(** ** Exceptions and results of calls *)

(** What [except Exception] catches, and what it lets through
    ([asyncio.CancelledError], [KeyboardInterrupt], [SystemExit]). *)
Inductive exn : Type :=
| Exception (msg : string)
| BaseException (msg : string).

(** [str(e)] *)
Definition str (e : exn) : string :=
  match e with Exception m => m | BaseException m => m end.

Inductive outcome (A : Type) : Type :=
| Returns (a : A)
| Raises (e : exn).
Arguments Returns {A} a.
Arguments Raises {A} e.

(** The errors that the libraries raise.  Their texts are not modelled:
    such an error has the name of its class as text. *)
Definition sqlite3_Error : exn := Exception "sqlite3.Error".
Definition OverflowError : exn := Exception "OverflowError".

(** ** Futures and rows *)

(** The dict built by [save_future] and by [_load_from_db]. *)
Record future : Type := Future {
  request_id : string;
  model_id : option string;
  operation : string;
  payload : json;
  status : string;
  result : json;
  created_at : Z;
  updated_at : Z
}.

(** A TEXT column written by [json.dumps]: the text of a JSON value.
    [json.loads] reads the value back; such a text is never empty. *)
Inductive text : Type := json_dumps (v : json).

Definition json_loads (t : text) : json :=
  match t with json_dumps v => v end.

(** A row of table [futures]; a nullable column is an option. *)
Record row : Type := Row {
  row_request_id : string;
  row_model_id : option string;
  row_operation : string;
  row_payload : text;
  row_status : string;
  row_result : option text;
  row_created_at : Z;
  row_updated_at : Z
}.

Definition _serialize_result (result : json) : option text :=
  if is_None result then None else Some (json_dumps result).

(** ** FuturesStorage *)

Record FuturesStorage : Type := Storage {
  _memory_store : gmap string future;
  futures_table : gmap string row
}.

(** [FuturesStorage(db_path)] on a database file that already holds [table]:
    the cache starts empty, [CREATE TABLE IF NOT EXISTS] keeps the rows. *)
Definition init (table : gmap string row) : FuturesStorage :=
  {| _memory_store := ∅; futures_table := table |}.

(** A restart of the server on the same database file. *)
Definition restart (st : FuturesStorage) : FuturesStorage :=
  init (futures_table st).

Definition set_memory (m : gmap string future) (st : FuturesStorage)
  : FuturesStorage :=
  {| _memory_store := m; futures_table := futures_table st |}.

Definition save_future (db_ok : bool) (t_created t_updated : Z)
    (rid op : string) (pl : json) (mid : option string)
    (st : FuturesStorage) : FuturesStorage * outcome unit :=
  let future_data :=
    {| request_id := rid; model_id := mid; operation := op; payload := pl;
       status := "pending"; result := JNull;
       created_at := t_created; updated_at := t_updated |} in
  let mem := <[rid := future_data]> (_memory_store st) in
  if db_ok then
    (* INSERT OR REPLACE *)
    let r :=
      {| row_request_id := rid; row_model_id := mid; row_operation := op;
         row_payload := json_dumps pl; row_status := status future_data;
         row_result := None;
         row_created_at := created_at future_data;
         row_updated_at := updated_at future_data |} in
    ({| _memory_store := mem; futures_table := <[rid := r]> (futures_table st) |},
     Returns tt)
  else (set_memory mem st, Raises sqlite3_Error).

Definition row_to_future (r : row) : future :=
  {| request_id := row_request_id r;
     model_id := row_model_id r;
     operation := row_operation r;
     payload := json_loads (row_payload r);
     status := row_status r;
     result := match row_result r with
               | Some t => json_loads t
               | None => JNull
               end;
     created_at := row_created_at r;
     updated_at := row_updated_at r |}.

Definition _load_from_db (db_ok : bool) (rid : string) (st : FuturesStorage)
  : outcome (option future) :=
  if db_ok then Returns (row_to_future <$> futures_table st !! rid)
  else Raises sqlite3_Error.

(** The assignments of [update_status] to the cached dict. *)
Definition set_status (st_new : string) (now : Z) (res : json) (f : future)
  : future :=
  {| request_id := request_id f; model_id := model_id f;
     operation := operation f; payload := payload f;
     status := st_new;
     result := if is_None res then result f else res;
     created_at := created_at f;
     updated_at := now |}.

(** [UPDATE futures SET status, result, updated_at WHERE request_id = ?]:
    the new table and [cursor.rowcount > 0]. *)
Definition sql_update (rid st_new : string) (res : option text) (upd : Z)
    (table : gmap string row) : gmap string row * bool :=
  match table !! rid with
  | Some r =>
      (<[rid := {| row_request_id := row_request_id r;
                   row_model_id := row_model_id r;
                   row_operation := row_operation r;
                   row_payload := row_payload r;
                   row_status := st_new;
                   row_result := res;
                   row_created_at := row_created_at r;
                   row_updated_at := upd |}]> table, true)
  | None => (table, false)
  end.

Definition update_status (db_ok : bool) (now : Z) (rid st_new : string)
    (res : json) (st : FuturesStorage) : FuturesStorage * outcome bool :=
  let resident :=
    match _memory_store st !! rid with
    | Some f => Returns (Some f)
    | None => _load_from_db db_ok rid st
    end in
  match resident with
  | Raises e => (st, Raises e)
  | Returns None => (st, Returns false)
  | Returns (Some f) =>
      let f' := set_status st_new now res f in
      let mem := <[rid := f']> (_memory_store st) in
      if db_ok then
        let '(table, found) :=
          sql_update rid st_new (_serialize_result res) (updated_at f')
                     (futures_table st) in
        ({| _memory_store := mem; futures_table := table |}, Returns found)
      else (set_memory mem st, Raises sqlite3_Error)
  end.

Definition get_future (db_ok : bool) (rid : string) (st : FuturesStorage)
  : FuturesStorage * outcome (option future) :=
  match _memory_store st !! rid with
  | Some f => (st, Returns (Some f))
  | None =>
      match _load_from_db db_ok rid st with
      | Raises e => (st, Raises e)
      | Returns None => (st, Returns None)
      | Returns (Some f) =>
          (set_memory (<[rid := f]> (_memory_store st)) st, Returns (Some f))
      end
  end.

(** One hour in microseconds: [timedelta(hours=1)]. *)
Definition hour : Z := 3600000000.

Definition cutoff_time (now max_age_hours : Z) : Z :=
  now - max_age_hours * hour.

(** [datetime.min] and [datetime.max], the first microsecond of year 1 and
    the last one of year 9999. *)
Definition datetime_min : Z := -62135596800000000.
Definition datetime_max : Z := 253402300799999999.

(** [datetime.utcnow() - timedelta(hours=max_age_hours)] raises
    [OverflowError] when the age is no [timedelta] or the difference is no
    [datetime].  The clock reads a [datetime], so a positive age can only
    lead below [datetime_min] and a negative one only above [datetime_max];
    an age of zero leads nowhere. *)
Definition cutoff_overflows (now max_age_hours : Z) : bool :=
  (0 <? max_age_hours) && (cutoff_time now max_age_hours <? datetime_min)
  || (max_age_hours <? 0) && (datetime_max <? cutoff_time now max_age_hours).

Definition cleanup_old_futures (db_ok : bool) (now max_age_hours : Z)
    (st : FuturesStorage) : FuturesStorage * outcome Z :=
  if cutoff_overflows now max_age_hours then (st, Raises OverflowError)
  else
  let cutoff := cutoff_time now max_age_hours in
  let to_remove : list string :=
    (filter (λ kv : string * future, created_at kv.2 < cutoff)
            (map_to_list (_memory_store st))).*1 in
  let mem := foldr delete (_memory_store st) to_remove in
  let memory_removed := Z.of_nat (length to_remove) in
  if db_ok then
    (* DELETE FROM futures WHERE created_at < ? *)
    let deleted :=
      filter (λ kv : string * row, row_created_at kv.2 < cutoff)
             (futures_table st) in
    let table :=
      filter (λ kv : string * row, ¬ row_created_at kv.2 < cutoff)
             (futures_table st) in
    let db_removed := Z.of_nat (size deleted) in
    ({| _memory_store := mem; futures_table := table |},
     Returns (memory_removed + db_removed))
  else (set_memory mem st, Raises sqlite3_Error).

(** ** TaskManager *)

(** [_active_tasks] maps a request id to its [asyncio.Task].  The task runs
    [wrapped_task], which is fixed by [task_func]; a handle is identified
    with what awaiting [task_func()] will produce. *)
Record TaskManager : Type := Manager {
  futures_storage : FuturesStorage;
  _active_tasks : gmap string (outcome json)
}.

(** The body of [create_task]: save the future, then schedule the task.
    Nothing of [task_func] runs before [create_task] returns. *)
Definition create_task (db_ok : bool) (t_created t_updated : Z)
    (rid op mid : string) (pl : json) (task_func : outcome json)
    (tm : TaskManager) : TaskManager * outcome unit :=
  match save_future db_ok t_created t_updated rid op pl (Some mid)
                    (futures_storage tm) with
  | (s, Raises e) =>
      ({| futures_storage := s; _active_tasks := _active_tasks tm |}, Raises e)
  | (s, Returns _) =>
      ({| futures_storage := s;
          _active_tasks := <[rid := task_func]> (_active_tasks tm) |},
       Returns tt)
  end.

(** The coroutine [wrapped_task], run to its end.  [db_ok1], [t1] belong to
    the [update_status] of the [try] block, [db_ok2], [t2] to the one of the
    [except Exception] block.  The outcome is what the task ends with:
    [Raises e] when an exception leaves the coroutine. *)
Definition wrapped_task (db_ok1 db_ok2 : bool) (t1 t2 : Z) (rid : string)
    (task_func : outcome json) (tm : TaskManager)
  : TaskManager * outcome unit :=
  let s0 := futures_storage tm in
  (* try *)
  let '(s1, tried) :=
    match task_func with
    | Returns res =>
        match update_status db_ok1 t1 rid "completed" res s0 with
        | (s, Returns _) => (s, Returns tt)
        | (s, Raises e) => (s, Raises e)
        end
    | Raises e => (s0, Raises e)
    end in
  (* except Exception as e *)
  let '(s2, handled) :=
    match tried with
    | Raises (Exception m) =>
        match update_status db_ok2 t2 rid "failed"
                (JObj [("error", JStr (str (Exception m)))]) s1 with
        | (s, Returns _) => (s, Returns tt)
        | (s, Raises e) => (s, Raises e)
        end
    | _ => (s1, tried)
    end in
  (* finally *)
  ({| futures_storage := s2; _active_tasks := delete rid (_active_tasks tm) |},
   handled).

Definition get_task (rid : string) (tm : TaskManager) : option (outcome json) :=
  _active_tasks tm !! rid.

Definition active_count (tm : TaskManager) : Z :=
  Z.of_nat (size (_active_tasks tm)).

(** ** The retrieval endpoint *)

Record poll_entry : Type := PollEntry { start_time : Z; count : Z }.

(** What the handler ends with: a returned [JSONResponse], a raised
    [HTTPException], or any other exception, which the framework answers. *)
Inductive http_result : Type :=
| JSONResponse (content : json)
| HTTPException (status_code : Z) (detail : json)
| Unhandled (e : exn).

(** The dict a caller of [get_future] reads. *)
Definition as_dict (f : future) : pydict :=
  [ ("request_id", JStr (request_id f));
    ("model_id", match model_id f with Some m => JStr m | None => JNull end);
    ("operation", JStr (operation f));
    ("payload", payload f);
    ("status", JStr (status f));
    ("result", result f);
    ("created_at", JNum (created_at f));
    ("updated_at", JNum (updated_at f)) ].

Definition items_of (v : json) : pydict :=
  match v with JObj fields => fields | _ => [] end.

(** Lines 126-134: the detail of the 500 answer. *)
Definition error_detail (fut : pydict) : json :=
  let res := dict_get "result" JNull fut in
  let error :=
    if truthy res && is_dict res && dict_has "error" (items_of res)
    then dict_get "error" JNull (items_of res)
    else if dict_has "error" fut then dict_get "error" JNull fut
    else JNull in
  py_or error (JStr "Operation failed").

Definition record_poll (now : Z) (rid : string)
    (poll_tracking : gmap string poll_entry) : gmap string poll_entry :=
  let started :=
    match poll_tracking !! rid with
    | Some _ => poll_tracking
    | None => <[rid := {| start_time := now; count := 0 |}]> poll_tracking
    end in
  alter (λ e, {| start_time := start_time e; count := count e + 1 |})
        rid started.

Definition retrieve_future (db_ok : bool) (now : Z) (rid : string)
    (storage : FuturesStorage) (futures_store : gmap string pydict)
    (poll_tracking : gmap string poll_entry)
  : FuturesStorage * gmap string poll_entry * http_result :=
  let polls := record_poll now rid poll_tracking in
  match get_future db_ok rid storage with
  | (s, Raises e) => (s, polls, Unhandled e)
  | (s, Returns found) =>
      let looked :=
        match found with
        | Some f => Some (as_dict f)
        | None => futures_store !! rid
        end in
      match looked with
      | None =>
          (s, polls,
           HTTPException 404 (JStr ("Future " ++ rid ++ " not found")))
      | Some fut =>
          match dict_lookup "status" fut with
          | None => (s, polls, Unhandled (Exception "'status'"))
          | Some st =>
              if eq_str st "completed" then
                (s, delete rid polls,
                 JSONResponse (dict_get "result" (JObj []) fut))
              else if eq_str st "failed" then
                (s, delete rid polls, HTTPException 500 (error_detail fut))
              else
                (s, polls,
                 HTTPException 408 (JStr "Operation still in progress"))
          end
      end
  end.

(** ** Object identity: who shares which dict

    The definitions above treat a future as a value.  That is sound as long
    as nobody assigns into a dict that somebody else still holds.  Whether
    [get_future] protects the cache against such assignments depends on
    object identity, so [get_future] and [_load_from_db] are modelled a
    second time on a heap of dict and list objects. *)

Module Obj.

Definition loc : Type := positive.

(** A value is immutable, or a reference to a dict or list on the heap. *)
Inductive pyval : Type :=
| VNone
| VBool (b : bool)
| VInt (n : Z)
| VStr (s : string)
| VRef (l : loc).

Inductive pyobj : Type :=
| ODict (items : list (string * pyval))
| OList (elems : list pyval).

Record heap : Type := Heap { objs : gmap loc pyobj; next : loc }.

Definition alloc (o : pyobj) (h : heap) : loc * heap :=
  (next h, {| objs := <[next h := o]> (objs h); next := Pos.succ (next h) |}).

(** [json.loads]: every list and dict of the value is a new object. *)
Fixpoint of_json (v : json) (h : heap) : pyval * heap :=
  match v with
  | JNull => (VNone, h)
  | JBool b => (VBool b, h)
  | JNum n => (VInt n, h)
  | JStr s => (VStr s, h)
  | JArr items =>
      let '(vs, h1) :=
        (fix elems (l : list json) (h : heap) : list pyval * heap :=
           match l with
           | [] => ([], h)
           | x :: rest =>
               let '(pv, h1) := of_json x h in
               let '(pvs, h2) := elems rest h1 in
               (pv :: pvs, h2)
           end) items h in
      let '(l, h2) := alloc (OList vs) h1 in
      (VRef l, h2)
  | JObj fields =>
      let '(kvs, h1) :=
        (fix items (l : list (string * json)) (h : heap)
           : list (string * pyval) * heap :=
           match l with
           | [] => ([], h)
           | (k, x) :: rest =>
               let '(pv, h1) := of_json x h in
               let '(pvs, h2) := items rest h1 in
               ((k, pv) :: pvs, h2)
           end) fields h in
      let '(l, h2) := alloc (ODict kvs) h1 in
      (VRef l, h2)
  end.

(** The JSON value an object denotes now: follow references, at most
    [fuel] levels deep. *)
Fixpoint to_json (fuel : nat) (h : heap) (v : pyval) : option json :=
  match v with
  | VNone => Some JNull
  | VBool b => Some (JBool b)
  | VInt n => Some (JNum n)
  | VStr s => Some (JStr s)
  | VRef l =>
      match fuel with
      | O => None
      | S n =>
          match objs h !! l with
          | Some (ODict items) =>
              JObj <$> mapM (λ kv : string * pyval,
                               pair kv.1 <$> to_json n h kv.2) items
          | Some (OList elems) => JArr <$> mapM (to_json n h) elems
          | None => None
          end
      end
  end.

(** [d[k]] *)
Fixpoint item (k : string) (items : list (string * pyval)) : option pyval :=
  match items with
  | [] => None
  | (k', v) :: rest => if String.eqb k k' then Some v else item k rest
  end.

Definition getitem (l : loc) (k : string) (h : heap) : option pyval :=
  match objs h !! l with
  | Some (ODict items) => item k items
  | _ => None
  end.

Fixpoint assign (k : string) (v : pyval) (items : list (string * pyval))
  : list (string * pyval) :=
  match items with
  | [] => [(k, v)]
  | (k', v') :: rest =>
      if String.eqb k k' then (k', v) :: rest else (k', v') :: assign k v rest
  end.

(** [d[k] = v], done by whoever holds a reference to [d]. *)
Definition setitem (l : loc) (k : string) (v : pyval) (h : heap) : heap :=
  match objs h !! l with
  | Some (ODict items) =>
      {| objs := <[l := ODict (assign k v items)]> (objs h); next := next h |}
  | _ => h
  end.

(** The interpreter state: the heap, [self._memory_store] as a map from
    request ids to the dict objects it holds, and the table. *)
Record state : Type := State {
  mem_heap : heap;
  _memory_store : gmap string loc;
  futures_table : gmap string row
}.

Definition init (table : gmap string row) : state :=
  {| mem_heap := {| objs := ∅; next := 1%positive |};
     _memory_store := ∅; futures_table := table |}.

(** The dict literal of [_load_from_db]. *)
Definition _load_from_db (db_ok : bool) (rid : string) (st : state)
  : state * outcome (option loc) :=
  if db_ok then
    match futures_table st !! rid with
    | Some r =>
        let '(pl, h1) := of_json (json_loads (row_payload r)) (mem_heap st) in
        let '(res, h2) :=
          match row_result r with
          | Some t => of_json (json_loads t) h1
          | None => (VNone, h1)
          end in
        let '(l, h3) :=
          alloc (ODict [ ("request_id", VStr (row_request_id r));
                         ("model_id", match row_model_id r with
                                      | Some m => VStr m
                                      | None => VNone
                                      end);
                         ("operation", VStr (row_operation r));
                         ("payload", pl);
                         ("status", VStr (row_status r));
                         ("result", res);
                         ("created_at", VInt (row_created_at r));
                         ("updated_at", VInt (row_updated_at r)) ]) h2 in
        ({| mem_heap := h3; _memory_store := _memory_store st;
            futures_table := futures_table st |}, Returns (Some l))
    | None => (st, Returns None)
    end
  else (st, Raises sqlite3_Error).

Definition get_future (db_ok : bool) (rid : string) (st : state)
  : state * outcome (option loc) :=
  match _memory_store st !! rid with
  | Some l =>
      (* return self._memory_store[request_id].copy() *)
      match objs (mem_heap st) !! l with
      | Some (ODict items) =>
          let '(l', h) := alloc (ODict items) (mem_heap st) in
          ({| mem_heap := h; _memory_store := _memory_store st;
              futures_table := futures_table st |}, Returns (Some l'))
      | _ => (st, Raises (Exception "AttributeError"))
      end
  | None =>
      match _load_from_db db_ok rid st with
      | (st1, Returns (Some l)) =>
          (* self._memory_store[request_id] = future; return future *)
          ({| mem_heap := mem_heap st1;
              _memory_store := <[rid := l]> (_memory_store st1);
              futures_table := futures_table st1 |}, Returns (Some l))
      | other => other
      end
  end.

(** Assignments by a caller that holds [l]: [d[k] = v] and [d[k1][k2] = v]. *)
Definition caller_sets (l : loc) (k : string) (v : pyval) (st : state)
  : state :=
  {| mem_heap := setitem l k v (mem_heap st);
     _memory_store := _memory_store st;
     futures_table := futures_table st |}.

Definition caller_sets_nested (l : loc) (k1 k2 : string) (v : pyval)
    (st : state) : state :=
  match getitem l k1 (mem_heap st) with
  | Some (VRef inner) => caller_sets inner k2 v st
  | _ => st
  end.


(** What the next [get_future rid] hands out, read through all references. *)
Definition next_get (fuel : nat) (rid : string) (st : state) : option json :=
  match get_future true rid st with
  | (st', Returns (Some l)) => to_json fuel (mem_heap st') (VRef l)
  | _ => None
  end.

End Obj.

(** ** Reading objects as values *)

(** The two loops of [of_json], over the elements of a list and over the
    items of a dict. *)
Definition elems_of_json : list json → Obj.heap → list Obj.pyval * Obj.heap :=
  fix elems (l : list json) (h : Obj.heap) : list Obj.pyval * Obj.heap :=
    match l with
    | [] => ([], h)
    | x :: rest =>
        let '(pv, h1) := Obj.of_json x h in
        let '(pvs, h2) := elems rest h1 in
        (pv :: pvs, h2)
    end.

Definition items_of_json
  : list (string * json) → Obj.heap → list (string * Obj.pyval) * Obj.heap :=
  fix items (l : list (string * json)) (h : Obj.heap)
    : list (string * Obj.pyval) * Obj.heap :=
    match l with
    | [] => ([], h)
    | (k, x) :: rest =>
        let '(pv, h1) := Obj.of_json x h in
        let '(pvs, h2) := items rest h1 in
        ((k, pv) :: pvs, h2)
    end.

(** [h'] has the objects of [h] and, above them, new ones. *)
Definition extends (h h' : Obj.heap) : Prop :=
  (Obj.next h ≤ Obj.next h')%positive
  ∧ ∀ l, (l < Obj.next h)%positive → Obj.objs h' !! l = Obj.objs h !! l.

(** [pv] denotes [v] through the objects allocated between [h] and [h'],
    in every heap that has these objects and with enough fuel. *)
Definition denotes (h h' : Obj.heap) (pv : Obj.pyval) (v : json) : Prop :=
  ∃ n0 : nat, ∀ (fuel : nat) (h'' : Obj.heap),
    (n0 ≤ fuel)%nat →
    (∀ l, (Obj.next h ≤ l)%positive → (l < Obj.next h')%positive →
          Obj.objs h'' !! l = Obj.objs h' !! l) →
    Obj.to_json fuel h'' pv = Some v.

(** [json.loads] of [v] allocates new objects only, and what it returns
    denotes [v]. *)
Definition of_json_ok (v : json) : Prop :=
  ∀ h, extends h (Obj.of_json v h).2
       ∧ denotes h (Obj.of_json v h).2 (Obj.of_json v h).1 v.

(** ** Sequences of calls to the store *)

(** A call to one of the three methods that touch a single future. *)
Inductive call : Type :=
| CallSave (db_ok : bool) (t_created t_updated : Z) (rid op : string)
           (pl : json) (mid : option string)
| CallUpdate (db_ok : bool) (now : Z) (rid st_new : string) (res : json)
| CallGet (db_ok : bool) (rid : string).

Definition run_call (c : call) (st : FuturesStorage) : FuturesStorage :=
  match c with
  | CallSave db_ok t1 t2 rid op pl mid =>
      (save_future db_ok t1 t2 rid op pl mid st).1
  | CallUpdate db_ok now rid st_new res =>
      (update_status db_ok now rid st_new res st).1
  | CallGet db_ok rid => (get_future db_ok rid st).1
  end.

Definition run_calls (cs : list call) (st : FuturesStorage) : FuturesStorage :=
  foldl (λ s c, run_call c s) st cs.

(** [save_future] and [update_status] write to the future they name;
    [get_future] writes to none. *)
Definition writes_to (rid : string) (c : call) : Prop :=
  match c with
  | CallSave _ _ _ rid' _ _ _ => rid' = rid
  | CallUpdate _ _ rid' _ _ => rid' = rid
  | CallGet _ _ => False
  end.

(** The status that a call leaves in a cached future: [save_future] makes
    it pending, [update_status] makes it the status given, for the future
    that the call names; [shown] is the status before the call. *)
Definition status_written (rid : string) (c : call) (shown : string)
  : string :=
  match c with
  | CallSave _ _ _ rid' _ _ _ =>
      if String.eqb rid' rid then "pending" else shown
  | CallUpdate _ _ rid' st_new _ =>
      if String.eqb rid' rid then st_new else shown
  | CallGet _ _ => shown
  end.

Definition last_status_written (rid : string) (cs : list call)
    (shown : string) : string :=
  foldl (λ s c, status_written rid c s) shown cs.

(** ** The response table of the retrieval protocol *)

Definition generic_failure : json := JStr "Operation failed".

(** [result.error], when the result is a dict that has the key. *)
Definition result_error (res : json) : option json :=
  match res with
  | JObj fields => dict_lookup "error" fields
  | _ => None
  end.

(** The error of a failed future of the legacy store: [result.error] when
    the result is a dict that is not empty and has the key, else the entry
    ["error"] of the future itself. *)
Definition legacy_error (fut : pydict) : option json :=
  match dict_lookup "result" fut with
  | Some (JObj (kv :: fields)) =>
      match dict_lookup "error" (kv :: fields) with
      | Some m => Some m
      | None => dict_lookup "error" fut
      end
  | _ => dict_lookup "error" fut
  end.

(** The answers, by the future that was looked up: [found] is what the
    storage has, [legacy] what the legacy store has for the request id. *)
Definition response_table (rid : string) (found : option future)
    (legacy : option pydict) : http_result :=
  match found, legacy with
  | Some f, _ =>
      if String.eqb (status f) "completed" then JSONResponse (result f)
      else if String.eqb (status f) "failed" then
        HTTPException 500
          match result_error (result f) with
          | Some m => if truthy m then m else generic_failure
          | None => generic_failure
          end
      else HTTPException 408 (JStr "Operation still in progress")
  | None, None => HTTPException 404 (JStr ("Future " ++ rid ++ " not found"))
  | None, Some fut =>
      match dict_lookup "status" fut with
      | None => Unhandled (Exception "'status'")
      | Some st =>
          if eq_str st "completed" then
            JSONResponse (default (JObj []) (dict_lookup "result" fut))
          else if eq_str st "failed" then
            HTTPException 500
              match legacy_error fut with
              | Some m => if truthy m then m else generic_failure
              | None => generic_failure
              end
          else HTTPException 408 (JStr "Operation still in progress")
      end
  end.

(** The same table read literally: for a failed future, the error message is
    taken from [result.error], and the generic message is used when
    [result.error] is absent. *)
Definition response_table_as_stated (rid : string) (found : option future)
  : http_result :=
  match found with
  | None => HTTPException 404 (JStr ("Future " ++ rid ++ " not found"))
  | Some f =>
      if String.eqb (status f) "completed" then JSONResponse (result f)
      else if String.eqb (status f) "failed" then
        HTTPException 500
          match result_error (result f) with
          | Some m => m
          | None => generic_failure
          end
      else HTTPException 408 (JStr "Operation still in progress")
  end.

(** ** Counting futures *)

(** The request ids the store knows, in the cache or in the table. *)
Definition known_ids (st : FuturesStorage) : gset string :=
  dom (_memory_store st) ∪ dom (futures_table st).

(** The number of futures a call removed, from the store before and after. *)
Definition futures_removed (before after : FuturesStorage) : Z :=
  Z.of_nat (size (known_ids before ∖ known_ids after)).

(** The cache and the table hold the same futures, created at the same
    times, as after [save_future]. *)
Definition same_entries (st : FuturesStorage) : Prop :=
  ∀ rid, created_at <$> _memory_store st !! rid
         = row_created_at <$> futures_table st !! rid.

(** ** Runs of the server *)

(** What happens to a task manager: a request handler submits work, the
    event loop runs the task of a request to its end, a client polls. *)
Inductive event : Type :=
| Submit (t : Z) (rid op mid : string) (pl : json) (work : outcome json)
| Finish (t : Z) (rid : string)
| Poll (rid : string).

Definition step (e : event) (tm : TaskManager) : TaskManager :=
  match e with
  | Submit t rid op mid pl work => (create_task true t t rid op mid pl work tm).1
  | Finish t rid =>
      match _active_tasks tm !! rid with
      | Some work => (wrapped_task true true t t rid work tm).1
      | None => tm
      end
  | Poll rid =>
      {| futures_storage := (get_future true rid (futures_storage tm)).1;
         _active_tasks := _active_tasks tm |}
  end.

Definition run (evs : list event) (tm : TaskManager) : TaskManager :=
  foldl (λ s e, step e s) tm evs.

(** Every request id is submitted at most once, and none of [used] again. *)
Fixpoint submitted_once (used : gset string) (evs : list event) : Prop :=
  match evs with
  | [] => True
  | Submit _ rid _ _ _ _ :: rest =>
      (rid ∉ used) ∧ submitted_once ({[rid]} ∪ used) rest
  | _ :: rest => submitted_once used rest
  end.

Definition server_started : TaskManager :=
  {| futures_storage := init ∅; _active_tasks := ∅ |}.

(** The invariant of such runs: a future with a running task is cached and
    pending, and every id the manager knows has been submitted. *)
Definition running_are_pending (used : gset string) (tm : TaskManager) : Prop :=
  (∀ rid work, _active_tasks tm !! rid = Some work →
     ∃ f, _memory_store (futures_storage tm) !! rid = Some f
          ∧ status f = "pending")
  ∧ dom (_active_tasks tm) ⊆ used
  ∧ known_ids (futures_storage tm) ⊆ used.

Definition used_by (e : event) (used : gset string) : gset string :=
  match e with
  | Submit _ rid _ _ _ _ => {[rid]} ∪ used
  | _ => used
  end.

Definition fresh_for (used : gset string) (e : event) : Prop :=
  match e with
  | Submit _ rid _ _ _ _ => rid ∉ used
  | _ => True
  end.

(** ** Executions used as examples *)

(** An empty database; ["r1"] is created at time 10 ... *)
Definition store_pending : FuturesStorage :=
  (save_future true 10 10 "r1" "save" (JObj []) None (init ∅)).1.

(** ... and completed at time 20 with result [{"x": 1}]. *)
Definition store_completed : FuturesStorage :=
  (update_status true 20 "r1" "completed" (JObj [("x", JNum 1)])
                 store_pending).1.

(** [update_status("r1", "pending")] on the completed future. *)
Definition store_reopened : FuturesStorage :=
  (update_status true 30 "r1" "pending" JNull store_completed).1.

(** [update_status("r1", "completed")], without a result, on the completed
    future. *)
Definition store_completed_twice : FuturesStorage :=
  (update_status true 30 "r1" "completed" JNull store_completed).1.

(** ... and then [update_status("r1", "completed", {"y": 2})]. *)
Definition store_completed_thrice : FuturesStorage :=
  (update_status true 40 "r1" "completed" (JObj [("y", JNum 2)])
                 store_completed_twice).1.

(** [save_future] at a moment when the database does not answer: the cache
    has the future, the table has no row. *)
Definition store_unsaved : FuturesStorage :=
  (save_future false 10 10 "r1" "save" (JObj []) None (init ∅)).1.

(** A task manager on an empty database runs work that raises an exception
    whose [str] is empty (as [asyncio.TimeoutError()] does). *)
Definition manager_failed_silently : TaskManager :=
  let work : outcome json := Raises (Exception EmptyString) in
  let tm0 := {| futures_storage := init ∅; _active_tasks := ∅ |} in
  let tm1 := (create_task true 10 10 "r1" "train" "m1" (JObj []) work tm0).1 in
  (wrapped_task true true 20 20 "r1" work tm1).1.


(** A server restarted on the table of [store_completed]; then the first
    [get_future "r1"] (a cache miss) and a second one (a cache hit). *)
Definition objects_restarted : Obj.state :=
  Obj.init (futures_table store_completed).

Definition objects_after_miss : Obj.state :=
  (Obj.get_future true "r1" objects_restarted).1.

Definition objects_after_hit : Obj.state :=
  (Obj.get_future true "r1" objects_after_miss).1.

(** * More of the code *)

(** ** FuturesStorage: listing and statistics *)

(** [if x:] on an optional string argument: given, and not empty. *)
Definition given (x : option string) : option string :=
  match x with
  | Some s => if String.eqb s EmptyString then None else Some s
  | None => None
  end.

(** The WHERE clause that [list_futures] builds.  [model_id = ?] is not
    true of a row whose [model_id] is NULL. *)
Definition selected (model_id_arg status_arg : option string) (r : row)
  : bool :=
  match given model_id_arg with
  | Some m =>
      match row_model_id r with
      | Some m' => String.eqb m' m
      | None => false
      end
  | None => true
  end
  && match given status_arg with
     | Some s => String.eqb (row_status r) s
     | None => true
     end.

(** [ORDER BY created_at DESC].  Rows created at the same time come in an
    order that SQLite chooses; the model takes the one of a merge sort over
    the listing of the table. *)
Definition newer_first (r1 r2 : row) : Prop :=
  row_created_at r2 ≤ row_created_at r1.

#[global] Instance newer_first_dec : RelDecision newer_first :=
  λ r1 r2, decide (row_created_at r2 ≤ row_created_at r1).

(** [LIMIT ?]: in SQLite a negative limit is no limit. *)
Definition sql_limit {A : Type} (limit : Z) (l : list A) : list A :=
  if limit <? 0 then l else take (Z.to_nat limit) l.

Definition select_rows (model_id_arg status_arg : option string) (limit : Z)
    (table : gmap string row) : list row :=
  sql_limit limit
    (merge_sort newer_first
       (filter (λ r, selected model_id_arg status_arg r = true)
               (map_to_list table).*2)).

(** An SQLite INTEGER has 64 bits; binding another integer raises
    [OverflowError]. *)
Definition in_int64 (n : Z) : bool :=
  (- 2 ^ 63 <=? n) && (n <? 2 ^ 63).

Definition list_futures (db_ok : bool) (model_id_arg status_arg : option string)
    (limit : Z) (st : FuturesStorage) : outcome (list future) :=
  if db_ok then
    if in_int64 limit then
      Returns (row_to_future
                 <$> select_rows model_id_arg status_arg limit
                                 (futures_table st))
    else Raises OverflowError
  else Raises sqlite3_Error.

(** [SELECT status, COUNT( * ) FROM futures GROUP BY status], as the dict
    that [dict(cursor.fetchall())] makes of it. *)
Definition count_by_status (table : gmap string row) : gmap string Z :=
  map_fold (λ _ r acc,
              <[row_status r := default 0 (acc !! row_status r) + 1]> acc)
           ∅ table.

Definition get_stats (db_ok : bool) (st : FuturesStorage)
  : outcome (gmap string Z) :=
  if db_ok then
    let stats := count_by_status (futures_table st) in
    let stats := <["total" := Z.of_nat (size (futures_table st))]> stats in
    Returns (<["in_memory" := Z.of_nat (size (_memory_store st))]> stats)
  else Raises sqlite3_Error.

(** The rows with a given status, and the sum of the entries of a dict. *)
Definition with_status (s : string) (table : gmap string row)
  : gmap string row :=
  filter (λ kv : string * row, row_status kv.2 = s) table.

Definition sum_values (m : gmap string Z) : Z :=
  map_fold (λ _ v acc, v + acc) 0 m.

(** ** Calls and request ids *)

(** The request id that a call names. *)
Definition target (c : call) : string :=
  match c with
  | CallSave _ _ _ rid _ _ _ => rid
  | CallUpdate _ _ rid _ _ => rid
  | CallGet _ rid => rid
  end.

(** ** Polling *)

(** A client polling one request id: one call of [retrieve_future] per
    clock reading of [nows], the answers in the order of the calls. *)
Fixpoint poll_all (db_ok : bool) (nows : list Z) (rid : string)
    (storage : FuturesStorage) (futures_store : gmap string pydict)
    (poll_tracking : gmap string poll_entry)
  : FuturesStorage * gmap string poll_entry * list http_result :=
  match nows with
  | [] => (storage, poll_tracking, [])
  | now :: rest =>
      let '(s, polls, answer) :=
        retrieve_future db_ok now rid storage futures_store poll_tracking in
      let '(s', polls', answers) :=
        poll_all db_ok rest rid s futures_store polls in
      (s', polls', answer :: answers)
  end.

Definition still_in_progress : http_result :=
  HTTPException 408 (JStr "Operation still in progress").

(** ** The cleanup endpoint *)

(** [CleanupResult(futures_cleaned=..., message=...)] *)
Record CleanupResult : Type := {
  futures_cleaned : Z;
  message : string
}.

(** What a handler with a response model ends with. *)
Inductive response (A : Type) : Type :=
| Responds (a : A)
| HTTPError (status_code : Z) (detail : string)
| Propagates (e : exn).
Arguments Responds {A} a.
Arguments HTTPError {A} status_code detail.
Arguments Propagates {A} e.

Section cleanup_endpoint.

(** [datetime.fromisoformat(s).timestamp()] in microseconds, [None] when
    the expression raises. *)
Variable fromisoformat_timestamp : string → option Z.

(** Lines 189-196, for one future of the legacy store: whether it is
    deleted.  A [created_at] that is no string makes [fromisoformat] raise
    [TypeError]; the bare [except] passes over both errors. *)
Definition legacy_expired (cutoff_time : Z) (fut : pydict) : bool :=
  let created_at := dict_get "created_at" JNull fut in
  if truthy created_at then
    match created_at with
    | JStr s =>
        match fromisoformat_timestamp s with
        | Some created => created <? cutoff_time
        | None => false
        end
    | _ => false
    end
  else false.

(** [utcnow] is the clock as [cleanup_old_futures] reads it, [now] is
    [datetime.now().timestamp()] in microseconds.  The loop runs over a
    snapshot of the keys and deletes the key it looks at, so the future of
    every key is the one of the snapshot. *)
Definition cleanup_futures (db_ok : bool) (utcnow now max_age_hours : Z)
    (futures_storage : FuturesStorage) (futures_store : gmap string pydict)
  : FuturesStorage * gmap string pydict * response CleanupResult :=
  match cleanup_old_futures db_ok utcnow max_age_hours futures_storage with
  | (s, Returns removed_count) =>
      let cutoff_time := now - max_age_hours * hour in
      let expired : list string :=
        (filter (λ kv : string * pydict,
                   legacy_expired cutoff_time kv.2 = true)
                (map_to_list futures_store)).*1 in
      let store := foldr delete futures_store expired in
      let legacy_removed := Z.of_nat (length expired) in
      let total_removed := removed_count + legacy_removed in
      (s, store,
       Responds
         {| futures_cleaned := total_removed;
            message := "Successfully cleaned up " ++ pretty total_removed
                       ++ " futures older than " ++ pretty max_age_hours
                       ++ " hours" |})
  | (s, Raises (Exception m)) => (s, futures_store, HTTPError 500 m)
  | (s, Raises e) => (s, futures_store, Propagates e)
  end.

End cleanup_endpoint.

(** A [fromisoformat] that reads one date only. *)
Definition reads_epoch_only (s : string) : option Z :=
  if String.eqb s "1970-01-01T00:00:00" then Some 0 else None.

(** A legacy store of two futures: one dated, one with a date that
    [fromisoformat] does not read. *)
Definition legacy_two : gmap string pydict :=
  <["old" := [("status", JStr "completed");
              ("created_at", JStr "1970-01-01T00:00:00")]]>
    (<["odd" := [("status", JStr "completed");
                 ("created_at", JStr "yesterday")]]> ∅).

(** ** The primary key *)

(** [request_id] is the primary key of the table: the row found under a
    request id carries it. *)
Definition keyed (table : gmap string row) : Prop :=
  ∀ k r, table !! k = Some r → row_request_id r = k.

(** ** APIKeyAuth

    A string is a sequence of characters with code points below 256, which
    is what a header value is. *)

(** The characters that [str.strip()] removes: U+0009 to U+000D, U+001C to
    U+0020, U+0085 and U+00A0. *)
Definition is_space (c : ascii) : bool :=
  let n := nat_of_ascii c in
  ((9 <=? n) && (n <=? 13) || (28 <=? n) && (n <=? 32)
   || (n =? 133) || (n =? 160))%nat.

Fixpoint lstrip (s : string) : string :=
  match s with
  | String c rest => if is_space c then lstrip rest else s
  | EmptyString => EmptyString
  end.

Fixpoint rstrip (s : string) : string :=
  match s with
  | String c rest =>
      match rstrip rest with
      | EmptyString => if is_space c then EmptyString else String c EmptyString
      | kept => String c kept
      end
  | EmptyString => EmptyString
  end.

(** [s.strip()] *)
Definition strip (s : string) : string := rstrip (lstrip s).

(** [s.split(sep)] for a separator of one character. *)
Fixpoint split (sep : ascii) (s : string) : list string :=
  match s with
  | String c rest =>
      if Ascii.eqb c sep then EmptyString :: split sep rest
      else match split sep rest with
           | first :: others => String c first :: others
           | [] => [String c EmptyString]
           end
  | EmptyString => [EmptyString]
  end.

(** [c in s] for a character. *)
Fixpoint contains (c : ascii) (s : string) : bool :=
  match s with
  | String c' rest => Ascii.eqb c' c || contains c rest
  | EmptyString => false
  end.

Definition nonempty (s : string) : bool := negb (String.eqb s EmptyString).

Record APIKeyAuth : Type := {
  enabled : bool;
  header_name : string;
  valid_keys : gset string
}.

Definition comma : ascii := Ascii.ascii_of_nat 44.

(** [APIKeyAuth(api_key, enabled, header_name)] *)
Definition APIKeyAuth_init (api_key : string) (enabled : bool)
    (header_name : string) : APIKeyAuth :=
  {| enabled := enabled;
     header_name := header_name;
     valid_keys :=
       if nonempty api_key then
         list_to_set
           (strip <$> filter (λ key, nonempty (strip key) = true)
                             (split comma api_key))
       else ∅ |}.

Definition verify (auth : APIKeyAuth) (provided_key : option string)
  : response unit :=
  if negb (enabled auth) then Responds tt
  else
    match given provided_key with
    | None =>
        HTTPError 401 ("Missing API key (provide via " ++ header_name auth
                       ++ " header)")
    | Some key =>
        if decide (key ∈ valid_keys auth) then Responds tt
        else HTTPError 401 "Invalid API key"
    end.

Definition add_key (api_key : string) (auth : APIKeyAuth) : APIKeyAuth :=
  {| enabled := enabled auth; header_name := header_name auth;
     valid_keys := {[api_key]} ∪ valid_keys auth |}.

Definition remove_key (api_key : string) (auth : APIKeyAuth)
  : APIKeyAuth * bool :=
  if decide (api_key ∈ valid_keys auth) then
    ({| enabled := enabled auth; header_name := header_name auth;
        valid_keys := valid_keys auth ∖ {[api_key]} |}, true)
  else (auth, false).

(** [f"{key[:8]}..."] *)
Definition masked (key : string) : string := substring 0 8 key ++ "...".

(** The order in which a set is iterated is not modelled: the list is in
    the order of [elements]. *)
Definition list_keys (auth : APIKeyAuth) : list string :=
  masked <$> elements (valid_keys auth).

(** The helper function of the module. *)
Definition verify_api_key (x_api_key : option string) (valid_api_key : string)
  : response unit :=
  match given x_api_key with
  | None => HTTPError 401 "Invalid API key"
  | Some key =>
      if String.eqb key valid_api_key then Responds tt
      else HTTPError 401 "Invalid API key"
  end.

(** ** MetadataStorage

    The two directories are modelled by their files.  [training_runs] maps
    a training run id to the file [<id>.json]; [checkpoints] maps a model id
    to the directory of that name, which maps a checkpoint name to the file
    [<name>.json].  The source joins ids and names into a path.  The maps
    say where that path leads for a model id that is the name of a directory
    entry ([is_file_name]) and a run id or checkpoint name that has no slash
    ([is_name_stem]); another id or name leads to other files than the map
    says (["../m2/b"] to a checkpoint of [m2]; the empty model id to the
    directory of all checkpoints), and what is proved of a call whose result
    depends on it is proved for such ids and names.  The directories are
    taken to be different and to hold [.json] files only.  A file is what
    [json.load] reads from it, [None] when it raises, and its modification
    time.  [fs_ok = false] makes the file operations of a call raise
    [OSError].  A time is a number, as for the futures. *)

Definition slash : ascii := Ascii.ascii_of_nat 47.

(** The name of a directory entry. *)
Definition is_file_name (s : string) : bool :=
  nonempty s && negb (String.eqb s ".") && negb (String.eqb s "..")
  && negb (contains slash s) && negb (contains Ascii.zero s).

(** A string that [.json] makes the name of a directory entry. *)
Definition is_name_stem (s : string) : bool :=
  negb (contains slash s) && negb (contains Ascii.zero s).

Module Metadata.

Record file : Type := File { content : option json; st_mtime : Z }.

Record MetadataStorage : Type := {
  training_runs : gmap string file;
  checkpoints : gmap string (gmap string file)
}.

Definition OSError : exn := Exception "OSError".

(** [d[k] = v]: a key that is present keeps its place. *)
Fixpoint dict_set (k : string) (v : json) (d : pydict) : pydict :=
  match d with
  | [] => [(k, v)]
  | (k', v') :: rest =>
      if String.eqb k k' then (k, v) :: rest
      else (k', v') :: dict_set k v rest
  end.


(** [json.dump(..., sort_keys=True)] writes the items of every dict in the
    order of their keys; [sort_keys v] is what [json.load] reads back. *)
Fixpoint insert_item (kv : string * json) (l : pydict) : pydict :=
  match l with
  | [] => [kv]
  | kv' :: rest =>
      if String.leb kv.1 kv'.1 then kv :: l else kv' :: insert_item kv rest
  end.

Definition sort_items (l : pydict) : pydict := foldr insert_item [] l.

Fixpoint sort_keys (v : json) : json :=
  match v with
  | JArr items =>
      JArr ((fix elems (l : list json) : list json :=
               match l with
               | [] => []
               | x :: rest => sort_keys x :: elems rest
               end) items)
  | JObj fields =>
      JObj (sort_items
              ((fix items (l : pydict) : pydict :=
                  match l with
                  | [] => []
                  | (k, x) :: rest => (k, sort_keys x) :: items rest
                  end) fields))
  | _ => v
  end.

Definition write_json (v : json) (mtime : Z) : file :=
  {| content := Some (sort_keys v); st_mtime := mtime |}.

(** *** Training runs *)

(** The dict that [save_training_run] writes; it is the dict of the caller,
    which keeps the three assignments. *)
Definition training_run_metadata (t_created t_updated : Z)
    (training_run_id : string) (metadata : pydict) : pydict :=
  let metadata := dict_set "training_run_id" (JStr training_run_id) metadata in
  let metadata :=
    dict_set "created_at" (dict_get "created_at" (JNum t_created) metadata)
             metadata in
  dict_set "updated_at" (JNum t_updated) metadata.

(** Returns the path of the file, relative to the directory. *)
Definition save_training_run (fs_ok : bool) (t_created t_updated mtime : Z)
    (training_run_id : string) (metadata : pydict) (st : MetadataStorage)
  : MetadataStorage * outcome string :=
  let metadata :=
    training_run_metadata t_created t_updated training_run_id metadata in
  if fs_ok then
    ({| training_runs :=
          <[training_run_id := write_json (JObj metadata) mtime]>
            (training_runs st);
        checkpoints := checkpoints st |},
     Returns (training_run_id ++ ".json"))
  else (st, Raises OSError).



(** [if wanted and metadata.get(key) != wanted: continue]: [Some false]
    when the run is skipped, [None] when [metadata] is no dict and [get]
    raises [AttributeError]. *)
Definition passes (wanted : option string) (key : string) (metadata : json)
  : option bool :=
  match given wanted with
  | None => Some true
  | Some w =>
      match metadata with
      | JObj d => Some (eq_str (dict_get key JNull d) w)
      | _ => None
      end
  end.

Definition newest_file_first (f1 f2 : file) : Prop := st_mtime f2 ≤ st_mtime f1.

#[global] Instance newest_file_first_dec : RelDecision newest_file_first :=
  λ f1 f2, decide (st_mtime f2 ≤ st_mtime f1).

(** [sorted(dir.glob("*.json"), key=mtime, reverse=True)] *)
Definition by_mtime (dir : gmap string file) : list file :=
  merge_sort newest_file_first (map_to_list dir).*2.

(** The loop of [list_training_runs], from the files left and the runs
    collected. *)
Fixpoint collect_runs (model_id base_model : option string) (limit : Z)
    (files : list file) (runs : list json) : list json :=
  match files with
  | [] => runs
  | f :: rest =>
      if Z.of_nat (length runs) >=? limit then runs
      else
        match content f with
        | None => collect_runs model_id base_model limit rest runs
        | Some metadata =>
            match passes model_id "model_id" metadata with
            | Some true =>
                match passes base_model "base_model" metadata with
                | Some true =>
                    collect_runs model_id base_model limit rest
                                 (runs ++ [metadata])
                | _ => collect_runs model_id base_model limit rest runs
                end
            | _ => collect_runs model_id base_model limit rest runs
            end
        end
  end.

Definition list_training_runs (model_id base_model : option string)
    (limit : Z) (st : MetadataStorage) : list json :=
  collect_runs model_id base_model limit (by_mtime (training_runs st)) [].

(** *** Checkpoints *)

Definition checkpoint_metadata (now : Z) (model_id checkpoint_name : string)
    (checkpoint_data : pydict) : pydict :=
  let data := dict_set "model_id" (JStr model_id) checkpoint_data in
  let data := dict_set "checkpoint_name" (JStr checkpoint_name) data in
  dict_set "created_at" (JNum now) data.

Definition save_checkpoint (fs_ok : bool) (now mtime : Z)
    (model_id checkpoint_name : string) (checkpoint_data : pydict)
    (st : MetadataStorage) : MetadataStorage * outcome string :=
  if fs_ok then
    (* mkdir(parents=True, exist_ok=True) *)
    let dir := default ∅ (checkpoints st !! model_id) in
    let data := checkpoint_metadata now model_id checkpoint_name
                                    checkpoint_data in
    ({| training_runs := training_runs st;
        checkpoints :=
          <[model_id := <[checkpoint_name := write_json (JObj data) mtime]> dir]>
            (checkpoints st) |},
     Returns (model_id ++ "/" ++ checkpoint_name ++ ".json"))
  else (st, Raises OSError).

Definition checkpoint_file (model_id checkpoint_name : string)
    (st : MetadataStorage) : option file :=
  checkpoints st !! model_id ≫= λ dir, dir !! checkpoint_name.

Definition load_checkpoint (fs_ok : bool) (model_id checkpoint_name : string)
    (st : MetadataStorage) : option json :=
  match checkpoint_file model_id checkpoint_name st with
  | None => None
  | Some f => if fs_ok then content f else None
  end.

(** The loop of [list_checkpoints]. *)
Fixpoint collect_checkpoints (limit : Z) (files : list file)
    (found : list json) : list json :=
  match files with
  | [] => found
  | f :: rest =>
      if Z.of_nat (length found) >=? limit then found
      else
        match content f with
        | None => collect_checkpoints limit rest found
        | Some data => collect_checkpoints limit rest (found ++ [data])
        end
  end.

Definition list_checkpoints (model_id : string) (limit : Z)
    (st : MetadataStorage) : list json :=
  match checkpoints st !! model_id with
  | None => []
  | Some dir => collect_checkpoints limit (by_mtime dir) []
  end.

Definition delete_checkpoint (fs_ok : bool) (model_id checkpoint_name : string)
    (st : MetadataStorage) : MetadataStorage * outcome bool :=
  match checkpoints st !! model_id with
  | None => (st, Returns false)
  | Some dir =>
      match dir !! checkpoint_name with
      | None => (st, Returns false)
      | Some _ =>
          if fs_ok then
            let dir' := delete checkpoint_name dir in
            ({| training_runs := training_runs st;
                checkpoints :=
                  if decide (dir' = ∅) then delete model_id (checkpoints st)
                  else <[model_id := dir']> (checkpoints st) |},
             Returns true)
          else (st, Raises OSError)
      end
  end.

(** Whether the loop of [cleanup_model_data] unlinks the file. *)
Definition run_of_model (model_id : string) (f : file) : bool :=
  match content f with
  | Some (JObj d) => eq_str (dict_get "model_id" JNull d) model_id
  | _ => false
  end.

Definition cleanup_model_data (fs_ok : bool) (model_id : string)
    (st : MetadataStorage) : MetadataStorage * bool :=
  if fs_ok then
    let unlinked :=
      filter (λ kv : string * file, run_of_model model_id kv.2 = true)
             (training_runs st) in
    ({| training_runs :=
          filter (λ kv : string * file, run_of_model model_id kv.2 ≠ true)
                 (training_runs st);
        checkpoints := delete model_id (checkpoints st) |},
     bool_decide (is_Some (checkpoints st !! model_id))
     || negb (bool_decide (unlinked = ∅)))
  else (st, false).

End Metadata.

(** The items of a dict with [sort_keys] applied to the values, and the
    order of the keys in the text. *)
Definition sort_values (l : pydict) : pydict :=
  map (λ kv, (kv.1, Metadata.sort_keys kv.2)) l.

Definition key_le (a b : string * json) : Prop := String.leb a.1 b.1 = true.

(** Whether the loop of [list_training_runs] appends the run it has read. *)
Definition run_listed (model_id base_model : option string) (metadata : json)
  : bool :=
  match Metadata.passes model_id "model_id" metadata with
  | Some true =>
      match Metadata.passes base_model "base_model" metadata with
      | Some true => true
      | _ => false
      end
  | _ => false
  end.

(** A metadata directory with one training run and no checkpoint. *)
Definition one_run : Metadata.MetadataStorage :=
  (Metadata.save_training_run true 10 10 11 "run1" [("model_id", JStr "m1")]
     {| Metadata.training_runs := ∅; Metadata.checkpoints := ∅ |}).1.

(** ** CheckpointService

    The weights are saved by Ray actors; [saved] is what awaiting them
    gives.  [generate_step_id] comes from [utils.helpers].  Of the dict of a
    training client two keys matter here. *)

Record client_info : Type := ClientInfo {
  train_group : bool;                 (* the key is present *)
  training_run_id : option string     (* [None]: the key is missing *)
}.

Definition KeyError (key : string) : exn := Exception ("'" ++ key ++ "'").

Fixpoint zeros (n : nat) : string :=
  match n with O => EmptyString | S n' => String "0" (zeros n') end.

(** [f"{n:07d}"] *)
Definition format_07d (n : Z) : string :=
  let digits : string := pretty (Z.abs n) in
  if n <? 0 then "-" ++ zeros (6 - String.length digits) ++ digits
  else zeros (7 - String.length digits) ++ digits.

Section checkpoint_service.

Variable generate_step_id : string → Z.

(** [time_now] is [int(time.time())], [now] the clock read by the service,
    [utcnow] the one read by [save_checkpoint]. *)
Definition save_weights (fs_ok : bool) (time_now now utcnow mtime : Z)
    (saved : outcome unit) (model_id path : string)
    (training_clients : gmap string client_info)
    (metadata_storage : Metadata.MetadataStorage)
  : Metadata.MetadataStorage * outcome pydict :=
  match training_clients !! model_id with
  | None =>
      (metadata_storage, Raises (KeyError ("Model " ++ model_id ++ " not found")))
  | Some client =>
      if negb (train_group client) then
        (metadata_storage, Raises (KeyError "train_group"))
      else
        match training_run_id client with
        | None => (metadata_storage, Raises (KeyError "training_run_id"))
        | Some run_id =>
            let checkpoint_name :=
              if nonempty path then path
              else "checkpoint_" ++ pretty time_now in
            let step_id := generate_step_id checkpoint_name in
            let checkpoint_path :=
              "tinker://" ++ run_id ++ "/weights/" ++ checkpoint_name in
            match saved with
            | Raises e => (metadata_storage, Raises e)
            | Returns _ =>
                match Metadata.save_checkpoint fs_ok utcnow mtime model_id
                        checkpoint_name
                        [("path", JStr checkpoint_path);
                         ("created_at", JNum now);
                         ("type", JStr "manual_save")]
                        metadata_storage with
                | (st, Raises e) => (st, Raises e)
                | (st, Returns _) =>
                    (st, Returns [("path", JStr checkpoint_path);
                                  ("checkpoint_path", JStr checkpoint_path);
                                  ("step_id", JNum step_id);
                                  ("name", JStr checkpoint_name);
                                  ("type", JStr "save_weights")])
                end
            end
        end
  end.

Definition save_weights_for_sampler (fs_ok : bool)
    (time_now now utcnow mtime : Z)
    (saved : outcome unit) (model_id name : string)
    (training_clients : gmap string client_info)
    (metadata_storage : Metadata.MetadataStorage)
  : Metadata.MetadataStorage * outcome pydict :=
  match training_clients !! model_id with
  | None =>
      (metadata_storage, Raises (KeyError ("Model " ++ model_id ++ " not found")))
  | Some client =>
      if negb (train_group client) then
        (metadata_storage, Raises (KeyError "train_group"))
      else
        let run_id := default model_id (training_run_id client) in
        let checkpoint_name :=
          if nonempty name then name else "sampler_" ++ pretty time_now in
        let step_id := generate_step_id checkpoint_name in
        let checkpoint_path :=
          "/data/checkpoints/tinker/iter_" ++ format_07d step_id in
        let tinker_uri :=
          "tinker://" ++ run_id ++ "/weights/" ++ checkpoint_name in
        match saved with
        | Raises e => (metadata_storage, Raises e)
        | Returns _ =>
            match Metadata.save_checkpoint fs_ok utcnow mtime model_id
                    ("sampler_" ++ checkpoint_name)
                    [("path", JStr checkpoint_path);
                     ("tinker_uri", JStr tinker_uri);
                     ("created_at", JNum now);
                     ("type", JStr "sampler");
                     ("step_id", JNum step_id)]
                    metadata_storage with
            | (st, Raises e) => (st, Raises e)
            | (st, Returns _) =>
                (st, Returns [("path", JStr tinker_uri);
                              ("checkpoint_path", JStr checkpoint_path);
                              ("step_id", JNum step_id);
                              ("name", JStr checkpoint_name)])
            end
        end
  end.

End checkpoint_service.

(** * Properties *)

(** ** Basic facts about the store *)

Lemma is_None_keep (res : json) :
  (if is_None res then JNull else res) = res.
Proof. by destruct res. Qed.

Lemma get_future_hit db_ok rid st f :
  _memory_store st !! rid = Some f →
  get_future db_ok rid st = (st, Returns (Some f)).
Proof. intros H. unfold get_future. by rewrite H. Qed.

Lemma get_future_miss rid st :
  _memory_store st !! rid = None →
  (get_future true rid st).2
  = Returns (row_to_future <$> futures_table st !! rid).
Proof.
  intros H. unfold get_future, _load_from_db. rewrite H.
  by destruct (futures_table st !! rid).
Qed.

Lemma get_future_restart rid st :
  (get_future true rid (restart st)).2
  = Returns (row_to_future <$> futures_table st !! rid).
Proof. by rewrite get_future_miss. Qed.

Lemma save_future_memory db_ok t1 t2 rid op pl mid st :
  _memory_store (save_future db_ok t1 t2 rid op pl mid st).1 !! rid
  = Some (Future rid mid op pl "pending" JNull t1 t2).
Proof.
  unfold save_future. destruct db_ok; simpl; by rewrite lookup_insert_eq.
Qed.

Lemma save_future_table t1 t2 rid op pl mid st :
  futures_table (save_future true t1 t2 rid op pl mid st).1 !! rid
  = Some (Row rid mid op (json_dumps pl) "pending" None t1 t2).
Proof. unfold save_future; simpl. by rewrite lookup_insert_eq. Qed.

(** [update_status] on a future that is in the cache. *)
Lemma update_status_resident now rid st_new res st f :
  _memory_store st !! rid = Some f →
  update_status true now rid st_new res st
  = ({| _memory_store :=
          <[rid := set_status st_new now res f]> (_memory_store st);
        futures_table :=
          (sql_update rid st_new (_serialize_result res) now
                      (futures_table st)).1 |},
     Returns (sql_update rid st_new (_serialize_result res) now
                         (futures_table st)).2).
Proof.
  intros H. unfold update_status. rewrite H. simpl.
  by destruct (sql_update _ _ _ _ _).
Qed.

(** Whatever the database does, a call that returns [True] leaves the
    future in the cache with the status it was given. *)
Lemma update_status_true db_ok now rid st_new res st st' :
  update_status db_ok now rid st_new res st = (st', Returns true) →
  ∃ f, _memory_store st' !! rid = Some f ∧ status f = st_new.
Proof.
  unfold update_status, _load_from_db.
  destruct (_memory_store st !! rid) as [f|] eqn:Hm.
  - destruct db_ok; simpl; [|discriminate].
    destruct (sql_update _ _ _ _ _) as [tb b] eqn:Hs.
    intros [= <- ->]. exists (set_status st_new now res f).
    simpl. by rewrite lookup_insert_eq.
  - destruct db_ok; simpl; [|discriminate].
    destruct (futures_table st !! rid) as [r|] eqn:Hr; simpl; [|discriminate].
    destruct (sql_update _ _ _ _ _) as [tb b] eqn:Hs.
    intros [= <- ->]. eexists. simpl. rewrite lookup_insert_eq. done.
Qed.

(** A call that does not write to [rid] leaves a cached [rid] as it is. *)
Lemma run_call_memory_frame c rid st f :
  ¬ writes_to rid c →
  _memory_store st !! rid = Some f →
  _memory_store (run_call c st) !! rid = Some f.
Proof.
  intros Hw Hf. destruct c as [ok t1 t2 r op pl mid|ok now r s res|ok r]; simpl in *.
  - unfold save_future. destruct ok; simpl; by rewrite lookup_insert_ne.
  - unfold update_status, _load_from_db.
    destruct (_memory_store st !! r) as [g|]; simpl.
    + destruct ok; simpl; [destruct (sql_update _ _ _ _ _)|]; simpl;
        by rewrite lookup_insert_ne.
    + destruct ok; simpl; [|done].
      destruct (futures_table st !! r); simpl; [|done].
      destruct (sql_update _ _ _ _ _); simpl. by rewrite lookup_insert_ne.
  - unfold get_future, _load_from_db.
    destruct (_memory_store st !! r) as [g|] eqn:Hg; simpl; [done|].
    destruct ok; simpl; [|done].
    destruct (futures_table st !! r); simpl; [|done].
    rewrite lookup_insert_ne; [done|]. intros ->. congruence.
Qed.

(** ... and the row of [rid] as well. *)
Lemma run_call_table_frame c rid st :
  ¬ writes_to rid c →
  futures_table (run_call c st) !! rid = futures_table st !! rid.
Proof.
  intros Hw. destruct c as [ok t1 t2 r op pl mid|ok now r s res|ok r]; simpl in *.
  - unfold save_future. destruct ok; simpl; [|done]. by rewrite lookup_insert_ne.
  - unfold update_status, _load_from_db, sql_update.
    destruct (_memory_store st !! r) as [g|]; simpl.
    + destruct ok; simpl; [|done].
      destruct (futures_table st !! r); simpl; [|done].
      by rewrite lookup_insert_ne.
    + destruct ok; simpl; [|done].
      destruct (futures_table st !! r); simpl; [|done].
      by rewrite lookup_insert_ne.
  - unfold get_future, _load_from_db.
    destruct (_memory_store st !! r) as [g|]; simpl; [done|].
    destruct ok; simpl; [|done].
    by destruct (futures_table st !! r).
Qed.

Lemma run_calls_memory_frame cs rid st f :
  Forall (λ c, ¬ writes_to rid c) cs →
  _memory_store st !! rid = Some f →
  _memory_store (run_calls cs st) !! rid = Some f.
Proof.
  intros H. revert st. induction H as [|c cs Hc _ IH]; intros st Hf; [done|].
  apply IH. by apply run_call_memory_frame.
Qed.

Lemma run_calls_table_frame cs rid st :
  Forall (λ c, ¬ writes_to rid c) cs →
  futures_table (run_calls cs st) !! rid = futures_table st !! rid.
Proof.
  intros H. revert st. induction H as [|c cs Hc _ IH]; intros st; [done|].
  simpl. fold (run_calls cs (run_call c st)). rewrite IH.
  by apply run_call_table_frame.
Qed.

(** ** C1: terminal statuses *)

(** C1, as stated, fails: [update_status] has no guard on the current status.
    ["r1"] is completed; a further [update_status] with status ["pending"]
    returns [True], and [get_future] then shows ["r1"] as pending. *)
Lemma update_status_reopens_completed :
  (get_future true "r1" store_completed).2
  = Returns (Some (Future "r1" None "save" (JObj []) "completed"
                          (JObj [("x", JNum 1)]) 10 20))
  ∧ update_status true 30 "r1" "pending" JNull store_completed
    = (store_reopened, Returns true)
  ∧ (get_future true "r1" store_reopened).2
    = Returns (Some (Future "r1" None "save" (JObj []) "pending"
                            (JObj [("x", JNum 1)]) 10 30)).
Proof. vm_compute. by repeat split. Qed.

(** A call leaves a cached future in the cache, with the status that
    [status_written] says: [update_status] assigns the status before it
    turns to the database, so it does whether or not the database answers
    and whether or not it finds a row. *)
Lemma run_call_status c rid st f :
  _memory_store st !! rid = Some f →
  ∃ f', _memory_store (run_call c st) !! rid = Some f'
        ∧ status f' = status_written rid c (status f).
Proof.
  intros Hf.
  destruct c as [ok t1 t2 r op pl mid|ok now r s res|ok r]; simpl.
  - destruct (String.eqb r rid) eqn:Hr.
    + apply String.eqb_eq in Hr. subst r.
      exists (Future rid mid op pl "pending" JNull t1 t2). split; [|done].
      unfold save_future. destruct ok; simpl; by rewrite lookup_insert_eq.
    + apply String.eqb_neq in Hr. exists f. split; [|done].
      apply (run_call_memory_frame (CallSave ok t1 t2 r op pl mid));
        [by intros ?|done].
  - destruct (String.eqb r rid) eqn:Hr.
    + apply String.eqb_eq in Hr. subst r.
      exists (set_status s now res f). split; [|done].
      unfold update_status. rewrite Hf.
      destruct ok; simpl; [destruct (sql_update _ _ _ _ _)|]; simpl;
        by rewrite lookup_insert_eq.
    + apply String.eqb_neq in Hr. exists f. split; [|done].
      apply (run_call_memory_frame (CallUpdate ok now r s res));
        [by intros ?|done].
  - exists f. split; [|done].
    apply (run_call_memory_frame (CallGet ok r)); [by intros ?|done].
Qed.

(** C1, amended: for a future that is in the cache, the status that
    [get_future] shows after any calls is the status written by the last
    [save_future] or [update_status] among them that names the request id,
    whatever the status was before and whether or not that call found the
    database answering or a row to update; when no call names the request
    id, it is the status as it was. *)
Theorem status_is_that_of_last_write
    (rid : string) (st : FuturesStorage) (f : future) (cs : list call)
    (db_ok : bool) :
  _memory_store st !! rid = Some f →
  ∃ f', get_future db_ok rid (run_calls cs st)
        = (run_calls cs st, Returns (Some f'))
        ∧ status f' = last_status_written rid cs (status f).
Proof.
  revert st f. induction cs as [|c cs IH]; intros st f Hf.
  - exists f. split; [by apply get_future_hit|done].
  - destruct (run_call_status c rid st f Hf) as (f1 & Hf1 & Hs1).
    destruct (IH (run_call c st) f1 Hf1) as (f' & Hg & Hs').
    exists f'. split; [exact Hg|].
    rewrite Hs'. unfold last_status_written. simpl. by rewrite Hs1.
Qed.

(** ["r1"] is completed.  A get, calls for other request ids, an
    [update_status("r1", "failed")] that finds the database down and a get
    that finds it down: the future is shown as failed. *)
Lemma status_is_that_of_last_write_witness :
  ∃ f', get_future false "r1"
          (run_calls [ CallGet true "r1";
                       CallSave true 30 30 "r2" "save" (JObj []) None;
                       CallUpdate false 40 "r1" "failed" JNull;
                       CallUpdate true 50 "r2" "completed" JNull;
                       CallGet false "r3" ] store_completed)
        = (run_calls [ CallGet true "r1";
                       CallSave true 30 30 "r2" "save" (JObj []) None;
                       CallUpdate false 40 "r1" "failed" JNull;
                       CallUpdate true 50 "r2" "completed" JNull;
                       CallGet false "r3" ] store_completed,
           Returns (Some f'))
        ∧ status f' = "failed".
Proof.
  apply (status_is_that_of_last_write "r1" store_completed
           (Future "r1" None "save" (JObj []) "completed"
                   (JObj [("x", JNum 1)]) 10 20)).
  vm_compute. reflexivity.
Defined.

(** *** Runs of the server: what the task manager guarantees *)

Lemma update_status_other now rid rid' st_new res st :
  rid' ≠ rid →
  _memory_store (update_status true now rid st_new res st).1 !! rid'
  = _memory_store st !! rid'.
Proof.
  intros Hne. unfold update_status, _load_from_db.
  destruct (_memory_store st !! rid) as [g|]; simpl.
  - destruct (sql_update _ _ _ _ _); simpl. by rewrite lookup_insert_ne.
  - destruct (futures_table st !! rid); simpl; [|done].
    destruct (sql_update _ _ _ _ _); simpl. by rewrite lookup_insert_ne.
Qed.

Lemma update_status_known now rid st_new res st :
  known_ids (update_status true now rid st_new res st).1 ⊆ known_ids st.
Proof.
  apply elem_of_subseteq. intros k. unfold known_ids.
  rewrite !elem_of_union, !elem_of_dom.
  unfold update_status, _load_from_db, sql_update.
  destruct (_memory_store st !! rid) as [g|] eqn:Hm; simpl.
  - destruct (futures_table st !! rid) as [r|] eqn:Hr; simpl;
      destruct (decide (k = rid)) as [->|Hne];
      rewrite ?lookup_insert_eq, ?lookup_insert_ne, ?Hm, ?Hr by done;
      try done; intros _; by left.
  - destruct (futures_table st !! rid) as [r|] eqn:Hr; simpl; [|done].
    destruct (decide (k = rid)) as [->|Hne];
      rewrite ?lookup_insert_eq, ?lookup_insert_ne, ?Hm, ?Hr by done;
      try done. intros _; by right.
Qed.

Lemma update_status_returns now rid st_new res st :
  ∃ b, (update_status true now rid st_new res st).2 = Returns b.
Proof.
  unfold update_status, _load_from_db.
  destruct (_memory_store st !! rid); simpl.
  - destruct (sql_update _ _ _ _ _). by eexists.
  - destruct (futures_table st !! rid); simpl; [|by eexists].
    destruct (sql_update _ _ _ _ _). by eexists.
Qed.

(** With the database answering, [wrapped_task] is one [update_status],
    or nothing when the exception is not caught. *)
Lemma wrapped_task_storage t rid work tm :
  futures_storage (wrapped_task true true t t rid work tm).1
  = match work with
    | Returns res =>
        (update_status true t rid "completed" res (futures_storage tm)).1
    | Raises (Exception m) =>
        (update_status true t rid "failed" (JObj [("error", JStr m)])
                       (futures_storage tm)).1
    | Raises (BaseException _) => futures_storage tm
    end
  ∧ _active_tasks (wrapped_task true true t t rid work tm).1
    = delete rid (_active_tasks tm).
Proof.
  unfold wrapped_task. destruct work as [res|[m|m]]; simpl; [| |done].
  - destruct (update_status_returns t rid "completed" res (futures_storage tm))
      as [b Hb].
    destruct (update_status true t rid "completed" res (futures_storage tm))
      as [s r]. simpl in Hb. by subst r.
  - destruct (update_status_returns t rid "failed" (JObj [("error", JStr m)])
                (futures_storage tm)) as [b Hb].
    destruct (update_status true t rid "failed" _ (futures_storage tm))
      as [s r]. simpl in Hb. by subst r.
Qed.

Lemma wrapped_task_other t rid rid' work tm :
  rid' ≠ rid →
  _memory_store (futures_storage (wrapped_task true true t t rid work tm).1)
    !! rid'
  = _memory_store (futures_storage tm) !! rid'.
Proof.
  intros Hne. destruct (wrapped_task_storage t rid work tm) as [-> _].
  destruct work as [res|[m|m]]; [| |done]; by apply update_status_other.
Qed.

Lemma wrapped_task_known t rid work tm :
  known_ids (futures_storage (wrapped_task true true t t rid work tm).1)
  ⊆ known_ids (futures_storage tm).
Proof.
  destruct (wrapped_task_storage t rid work tm) as [-> _].
  destruct work as [res|[m|m]]; [| |done]; apply update_status_known.
Qed.

Lemma get_future_other rid rid' st f :
  _memory_store st !! rid' = Some f →
  _memory_store (get_future true rid st).1 !! rid' = Some f.
Proof. apply (run_call_memory_frame (CallGet true rid)). by intros []. Qed.

Lemma get_future_known rid st :
  known_ids (get_future true rid st).1 ⊆ known_ids st.
Proof.
  unfold get_future, _load_from_db.
  destruct (_memory_store st !! rid); simpl; [done|].
  destruct (futures_table st !! rid) as [r|] eqn:Hr; simpl; [|done].
  unfold known_ids; simpl. rewrite dom_insert_L.
  apply elem_of_dom_2 in Hr. set_solver.
Qed.

Lemma step_keeps_invariant e used tm :
  running_are_pending used tm →
  fresh_for used e →
  running_are_pending (used_by e used) (step e tm).
Proof.
  intros (Hrun & Hact & Hknown) Hfresh.
  destruct e as [t rid op mid pl work|t rid|rid]; simpl in *.
  - unfold create_task, save_future; simpl. split; [|split]; simpl.
    + intros rid' work'. destruct (decide (rid' = rid)) as [->|Hne].
      * intros _. eexists. split; [apply lookup_insert_eq|done].
      * rewrite !lookup_insert_ne by done. apply Hrun.
    + rewrite dom_insert_L. set_solver.
    + unfold known_ids in *; simpl. rewrite !dom_insert_L. set_solver.
  - destruct (_active_tasks tm !! rid) as [work|] eqn:Ha; [|done].
    split; [|split].
    + intros rid' work'.
      destruct (wrapped_task_storage t rid work tm) as [_ ->].
      intros Hd. apply lookup_delete_Some in Hd as [Hne Hd].
      rewrite wrapped_task_other by done. by eapply Hrun.
    + destruct (wrapped_task_storage t rid work tm) as [_ ->].
      rewrite dom_delete_L. set_solver.
    + etrans; [apply wrapped_task_known|done].
  - split; [|split]; simpl; [|done|].
    + intros rid' work' Ha. destruct (Hrun rid' work' Ha) as (f & Hf & Hs).
      exists f. split; [|done]. by apply get_future_other.
    + etrans; [apply get_future_known|done].
Qed.

(** A future that is not pending keeps its entry in the cache, because only
    the task of a request writes to its future and that task is over. *)
Lemma step_keeps_terminal e used tm rid f :
  running_are_pending used tm →
  fresh_for used e →
  _memory_store (futures_storage tm) !! rid = Some f →
  status f ≠ "pending" →
  _memory_store (futures_storage (step e tm)) !! rid = Some f.
Proof.
  intros (Hrun & Hact & Hknown) Hfresh Hf Hs.
  destruct e as [t rid' op mid pl work|t rid'|rid']; simpl in *.
  - unfold create_task, save_future; simpl. rewrite lookup_insert_ne; [done|].
    intros ->. apply Hfresh, Hknown. unfold known_ids.
    apply elem_of_union_l. by apply elem_of_dom_2 in Hf.
  - destruct (_active_tasks tm !! rid') as [work|] eqn:Ha; [|done].
    destruct (decide (rid = rid')) as [->|Hne].
    + destruct (Hrun rid' work Ha) as (g & Hg & Hpend). congruence.
    + by rewrite wrapped_task_other.
  - by apply get_future_other.
Qed.

Lemma run_keeps_terminal evs used tm rid f :
  running_are_pending used tm →
  submitted_once used evs →
  _memory_store (futures_storage tm) !! rid = Some f →
  status f ≠ "pending" →
  _memory_store (futures_storage (run evs tm)) !! rid = Some f.
Proof.
  revert used tm. induction evs as [|e evs IH]; intros used tm Hinv Hev Hf Hs;
    [done|].
  assert (fresh_for used e ∧ submitted_once (used_by e used) evs) as [Hfr Hrest].
  { destruct e; simpl in *; tauto. }
  simpl. apply (IH (used_by e used)); [|done| |done].
  - by apply step_keeps_invariant.
  - by eapply step_keeps_terminal.
Qed.

Lemma run_keeps_invariant evs used tm :
  running_are_pending used tm →
  submitted_once used evs →
  ∃ used', used ⊆ used' ∧ running_are_pending used' (run evs tm)
           ∧ ∀ evs', submitted_once used (evs ++ evs') →
                     submitted_once used' evs'.
Proof.
  revert used tm. induction evs as [|e evs IH]; intros used tm Hinv Hev.
  - exists used. split; [done|]. split; [done|]. by intros evs'.
  - assert (fresh_for used e ∧ submitted_once (used_by e used) evs)
      as [Hfr Hrest].
    { destruct e; simpl in *; tauto. }
    destruct (IH (used_by e used) (step e tm)) as (used' & Hsub & Hinv' & Happ);
      [by apply step_keeps_invariant|done|].
    exists used'. split; [|split; [done|]].
    + etrans; [|exact Hsub]. destruct e; simpl; set_solver.
    + intros evs' H. apply Happ. destruct e; simpl in *; tauto.
Qed.

Lemma submitted_once_app_l used evs1 evs2 :
  submitted_once used (evs1 ++ evs2) → submitted_once used evs1.
Proof.
  revert used. induction evs1 as [|e evs1 IH]; intros used H; [done|].
  destruct e as [t r op mid pl work|t r|r]; simpl in *.
  - destruct H as [H1 H2]. split; [exact H1|]. apply IH, H2.
  - apply IH, H.
  - apply IH, H.
Qed.

Lemma server_started_invariant : running_are_pending ∅ server_started.
Proof.
  split; [|split].
  - intros rid work H. simpl in H. by rewrite lookup_empty in H.
  - simpl. by rewrite dom_empty_L.
  - unfold known_ids; simpl. rewrite !dom_empty_L. set_solver.
Qed.

(** X1: for request ids submitted once, on a server started on an empty
    database and with the database answering: a future that is completed or
    failed is returned unchanged by [get_future] after any further
    submissions, task completions and polls. *)
Theorem submitted_once_terminal_is_final evs1 evs2 rid f :
  submitted_once ∅ (evs1 ++ evs2) →
  _memory_store (futures_storage (run evs1 server_started)) !! rid = Some f →
  status f = "completed" ∨ status f = "failed" →
  get_future true rid (futures_storage (run (evs1 ++ evs2) server_started))
  = (futures_storage (run (evs1 ++ evs2) server_started), Returns (Some f)).
Proof.
  intros Hev Hf Hs. apply get_future_hit.
  unfold run. rewrite foldl_app. fold (run evs1 server_started).
  fold (run evs2 (run evs1 server_started)).
  pose proof (submitted_once_app_l _ _ _ Hev) as Hev1.
  destruct (run_keeps_invariant evs1 ∅ server_started
              server_started_invariant Hev1) as (used & _ & Hinv & Happ).
  apply (run_keeps_terminal evs2 used); [done|by apply Happ|done|].
  destruct Hs as [-> | ->]; discriminate.
Qed.

(** For instance: ["r1"] completes, then is polled while ["r2"] is submitted
    and fails, and the event loop is asked once more to finish ["r1"]. *)
Lemma submitted_once_terminal_is_final_run :
  (get_future true "r1"
    (futures_storage
       (run ([ Submit 10 "r1" "save" "m1" (JObj [])
                      (Returns (JObj [("x", JNum 1)]));
               Finish 20 "r1" ]
             ++ [ Poll "r1";
                  Submit 30 "r2" "train" "m1" (JObj [])
                         (Raises (Exception "boom"));
                  Finish 40 "r2";
                  Finish 50 "r1" ]) server_started))).2
  = Returns (Some (Future "r1" (Some "m1") "save" (JObj []) "completed"
                          (JObj [("x", JNum 1)]) 10 20)).
Proof.
  erewrite submitted_once_terminal_is_final; [reflexivity| | |].
  - simpl. split; [set_solver|]. split; [set_solver|done].
  - vm_compute. reflexivity.
  - by left.
Defined.

(** X2: all along such a run, a request whose task has not ended is
    pending. *)
Lemma submitted_once_running_is_pending evs rid work :
  submitted_once ∅ evs →
  _active_tasks (run evs server_started) !! rid = Some work →
  ∃ f, get_future true rid (futures_storage (run evs server_started))
       = (futures_storage (run evs server_started), Returns (Some f))
       ∧ status f = "pending".
Proof.
  intros Hev Ha.
  destruct (run_keeps_invariant evs ∅ server_started
              server_started_invariant Hev) as (used & _ & (Hrun & _) & _).
  destruct (Hrun rid work Ha) as (f & Hf & Hs).
  exists f. split; [by apply get_future_hit|done].
Qed.

(** ** C2: create, complete, read back *)

(** C2: from any store, [save_future] followed by [update_status] with status
    ["completed"] and result [R] followed by [get_future] returns a future
    whose status is ["completed"] and whose result is [R]. *)
Theorem save_update_get_round_trip
    (st : FuturesStorage) (t0 t0' t1 : Z) (rid op : string)
    (pl : json) (mid : option string) (R : json) (db_ok : bool) :
  let '(st1, r1) := save_future true t0 t0' rid op pl mid st in
  let '(st2, r2) := update_status true t1 rid "completed" R st1 in
  let '(st3, r3) := get_future db_ok rid st2 in
  r1 = Returns tt ∧ r2 = Returns true ∧ st3 = st2
  ∧ r3 = Returns (Some (Future rid mid op pl "completed" R t0 t1)).
Proof.
  destruct (save_future true t0 t0' rid op pl mid st) as [st1 r1] eqn:H1.
  pose proof (save_future_memory true t0 t0' rid op pl mid st) as Hm.
  pose proof (save_future_table t0 t0' rid op pl mid st) as Ht.
  rewrite H1 in Hm, Ht. simpl in Hm, Ht.
  rewrite (update_status_resident _ _ _ _ _ _ Hm).
  unfold sql_update. rewrite Ht. cbn [fst snd].
  erewrite get_future_hit; [|simpl; by rewrite lookup_insert_eq].
  unfold save_future in H1. injection H1 as <- <-.
  repeat split. unfold set_status; simpl. by rewrite is_None_keep.
Qed.

(** ** C4: work that raises *)

(** [wrapped_task] on work that raises an [Exception], for a future that is
    in the cache and in the table, with the database answering. *)
Lemma wrapped_task_failure db_ok1 t1 t2 rid m tm f r :
  _memory_store (futures_storage tm) !! rid = Some f →
  futures_table (futures_storage tm) !! rid = Some r →
  let '(tm', ended) :=
    wrapped_task db_ok1 true t1 t2 rid (Raises (Exception m)) tm in
  ended = Returns tt
  ∧ _memory_store (futures_storage tm') !! rid
    = Some (set_status "failed" t2 (JObj [("error", JStr m)]) f)
  ∧ _active_tasks tm' !! rid = None.
Proof.
  intros Hf Hr. unfold wrapped_task.
  rewrite (update_status_resident _ _ _ _ _ _ Hf).
  unfold sql_update. rewrite Hr. simpl.
  split; [done|]. split; [by rewrite lookup_insert_eq|by rewrite lookup_delete_eq].
Qed.

(** An exception that [except Exception] does not catch (a cancellation)
    leaves the task, and the future stays as it was. *)
Lemma base_exception_leaves_the_task db_ok1 db_ok2 t1 t2 rid m tm :
  wrapped_task db_ok1 db_ok2 t1 t2 rid (Raises (BaseException m)) tm
  = ({| futures_storage := futures_storage tm;
        _active_tasks := delete rid (_active_tasks tm) |},
     Raises (BaseException m)).
Proof. reflexivity. Qed.



(** The two scenarios of the specification: work that returns [{"x": 1}],
    and work that raises ["boom"]. *)
Example scenario_work_succeeds :
  let tm0 := {| futures_storage := init ∅; _active_tasks := ∅ |} in
  let work : outcome json := Returns (JObj [("x", JNum 1)]) in
  let tm1 := (create_task true 10 10 "r1" "save" "m1" (JObj []) work tm0).1 in
  let tm2 := (wrapped_task true true 20 20 "r1" work tm1).1 in
  (retrieve_future true 15 "r1" (futures_storage tm1) ∅ ∅).2
  = HTTPException 408 (JStr "Operation still in progress")
  ∧ (retrieve_future true 25 "r1" (futures_storage tm2) ∅ ∅).2
    = JSONResponse (JObj [("x", JNum 1)])
  ∧ active_count tm1 = 1 ∧ active_count tm2 = 0.
Proof. vm_compute. by repeat split. Qed.

Example scenario_work_raises :
  let tm0 := {| futures_storage := init ∅; _active_tasks := ∅ |} in
  let work : outcome json := Raises (Exception "boom") in
  let tm1 := (create_task true 10 10 "r1" "save" "m1" (JObj []) work tm0).1 in
  let tm2 := (wrapped_task true true 20 20 "r1" work tm1).1 in
  (retrieve_future true 25 "r1" (futures_storage tm2) ∅ ∅).2
  = HTTPException 500 (JStr "boom").
Proof. vm_compute. reflexivity. Qed.

(** A database failure inside the handler leaves the task as well, with the
    cached future already failed. *)
Lemma storage_failure_leaves_the_task db_ok1 t1 t2 rid m tm f :
  _memory_store (futures_storage tm) !! rid = Some f →
  let '(tm', ended) :=
    wrapped_task db_ok1 false t1 t2 rid (Raises (Exception m)) tm in
  ended = Raises sqlite3_Error
  ∧ status <$> _memory_store (futures_storage tm') !! rid = Some "failed"
  ∧ futures_table (futures_storage tm') = futures_table (futures_storage tm).
Proof.
  intros Hf. unfold wrapped_task, update_status. rewrite Hf. simpl.
  by rewrite lookup_insert_eq.
Qed.

(** ** C5: the answers of the retrieval endpoint *)

Lemma dict_lookup_status f :
  dict_lookup "status" (as_dict f) = Some (JStr (status f)).
Proof. reflexivity. Qed.

Lemma dict_get_result default f :
  dict_get "result" default (as_dict f) = result f.
Proof. reflexivity. Qed.

(** The dict of a stored future has no key ["error"] of its own, so the
    detail of a 500 answer is decided by its result alone. *)
Lemma error_detail_as_dict f :
  error_detail (as_dict f)
  = match result_error (result f) with
    | Some m => if truthy m then m else generic_failure
    | None => generic_failure
    end.
Proof.
  unfold error_detail. rewrite dict_get_result.
  change (dict_has "error" (as_dict f)) with false.
  unfold result_error, dict_has, dict_get, py_or.
  destruct (result f) as [|b|n|s|items|fields];
    cbn [is_dict items_of]; rewrite ?andb_false_r; try reflexivity.
  destruct fields as [|kv fields]; [reflexivity|].
  cbn [truthy andb].
  destruct (dict_lookup "error" (kv :: fields)); reflexivity.
Qed.

(** C5, as stated, fails on a failed future whose [result.error] is present
    and empty: work that raised an exception with an empty message leaves
    a result whose ["error"] is the empty string, and the endpoint answers
    500 with the generic message instead of the recorded one. *)
Lemma empty_error_message_is_replaced :
  get_future true "r1" (futures_storage manager_failed_silently)
  = (futures_storage manager_failed_silently,
     Returns (Some (Future "r1" (Some "m1") "train" (JObj []) "failed"
                           (JObj [("error", JStr EmptyString)]) 10 20)))
  ∧ (retrieve_future true 30 "r1" (futures_storage manager_failed_silently)
                     ∅ ∅).2
    = HTTPException 500 (JStr "Operation failed")
  ∧ response_table_as_stated "r1"
      (Some (Future "r1" (Some "m1") "train" (JObj []) "failed"
                    (JObj [("error", JStr EmptyString)]) 10 20))
    = HTTPException 500 (JStr EmptyString).
Proof. vm_compute. by repeat split. Qed.

(** The detail of a 500 answer for a future of the legacy store. *)
Lemma error_detail_legacy (fut : pydict) :
  error_detail fut
  = match legacy_error fut with
    | Some m => if truthy m then m else generic_failure
    | None => generic_failure
    end.
Proof.
  unfold error_detail, legacy_error, dict_get, dict_has, py_or.
  destruct (dict_lookup "result" fut) as [[|b|n|s|items|fields]|];
    cbn [truthy is_dict items_of andb]; rewrite ?andb_false_r;
    try (by destruct (dict_lookup "error" fut)).
  destruct fields as [|kv fields]; cbn [truthy andb];
    [by destruct (dict_lookup "error" fut)|].
  destruct (dict_lookup "error" (kv :: fields)); [done|].
  by destruct (dict_lookup "error" fut).
Qed.

(** C5, amended: the endpoint answers by the table above.  A future of
    the storage decides alone: completed, 200 with its result; failed, 500
    with [result.error] when that is present and truthy and with the
    generic message otherwise; any other status, 408.  For an id that the
    storage does not have, the legacy store is asked: no future there, 404;
    a future without [status], a [KeyError]; completed, 200 with its result
    or [{}] when it has none; failed, 500 with [result.error], else with the
    future's own [error], else with the generic message; any other status,
    408.  When the storage raises, its error leaves the handler.  The
    storage is left as [get_future] leaves it. *)
Theorem retrieve_future_follows_table
    (db_ok : bool) (now : Z) (rid : string) (storage : FuturesStorage)
    (futures_store : gmap string pydict)
    (poll_tracking : gmap string poll_entry) :
  (retrieve_future db_ok now rid storage futures_store poll_tracking).2
  = match (get_future db_ok rid storage).2 with
    | Raises e => Unhandled e
    | Returns found => response_table rid found (futures_store !! rid)
    end
  ∧ (retrieve_future db_ok now rid storage futures_store poll_tracking).1.1
    = (get_future db_ok rid storage).1.
Proof.
  unfold retrieve_future.
  destruct (get_future db_ok rid storage) as [s [[f|]|e]]; cbn [fst snd];
    [| |done].
  - rewrite dict_lookup_status. cbn [eq_str response_table].
    destruct (String.eqb (status f) "completed"); [by rewrite dict_get_result|].
    destruct (String.eqb (status f) "failed"); [|done].
    by rewrite error_detail_as_dict.
  - unfold response_table.
    destruct (futures_store !! rid) as [fut|]; [|done].
    destruct (dict_lookup "status" fut) as [st|]; [|done].
    destruct (eq_str st "completed"); [done|].
    destruct (eq_str st "failed"); [|done].
    by rewrite error_detail_legacy.
Qed.

(** ** C6, C7: cleanup *)

Section cleanup.
Variable cutoff : Z.

Let old (kv : string * future) : Prop := created_at kv.2 < cutoff.
Let old_row (kv : string * row) : Prop := row_created_at kv.2 < cutoff.

(** The loop [for request_id in to_remove: del ...] removes the cached
    futures created before the cutoff and no other. *)
Lemma to_remove_deleted (m : gmap string future) :
  foldr delete m (filter old (map_to_list m)).*1
  = filter (λ kv, ¬ old kv) m.
Proof.
  apply map_eq. intros k.
  destruct (m !! k) as [f|] eqn:Hk.
  - destruct (decide (old (k, f))) as [Ho|Ho].
    + rewrite lookup_foldr_delete.
      * symmetry. apply map_lookup_filter_None. right.
        intros x Hx. assert (x = f) as -> by congruence. by intros [].
      * apply list_elem_of_fmap. exists (k, f). split; [done|].
        apply list_elem_of_filter. split; [done|].
        by apply elem_of_map_to_list.
    + rewrite lookup_foldr_delete_not_elem_of.
      * rewrite Hk. symmetry. by apply map_lookup_filter_Some.
      * intros Hin. apply list_elem_of_fmap in Hin as ([k' f'] & -> & Hin).
        apply list_elem_of_filter in Hin as [Hold Hin].
        apply elem_of_map_to_list in Hin. simpl in *.
        assert (f' = f) as -> by congruence. done.
  - rewrite lookup_foldr_delete_not_elem_of.
    + rewrite Hk. symmetry. apply map_lookup_filter_None. by left.
    + intros Hin. apply list_elem_of_fmap in Hin as ([k' f'] & -> & Hin).
      apply list_elem_of_filter in Hin as [_ Hin].
      apply elem_of_map_to_list in Hin. simpl in *. congruence.
Qed.

(** [len(to_remove)] is the number of cached futures created before the
    cutoff. *)
Lemma to_remove_length (m : gmap string future) :
  length (filter old (map_to_list m)).*1 = size (filter old m).
Proof.
  rewrite length_fmap, <- length_map_to_list.
  apply Permutation_length, NoDup_Permutation.
  - apply NoDup_filter, NoDup_map_to_list.
  - apply NoDup_map_to_list.
  - intros [k f]. rewrite list_elem_of_filter, !elem_of_map_to_list.
    rewrite map_lookup_filter_Some. tauto.
Qed.
End cleanup.

(** What [cleanup_old_futures] does when the cutoff is a [datetime] and
    the database answers: both the
    cache and the table lose exactly the entries created before the cutoff,
    and the number returned is the number of cache entries removed plus the
    number of rows deleted. *)
Lemma cleanup_old_futures_spec now max_age_hours st :
  cutoff_overflows now max_age_hours = false →
  let cutoff := cutoff_time now max_age_hours in
  cleanup_old_futures true now max_age_hours st
  = ({| _memory_store :=
          filter (λ kv, ¬ created_at kv.2 < cutoff) (_memory_store st);
        futures_table :=
          filter (λ kv, ¬ row_created_at kv.2 < cutoff) (futures_table st) |},
     Returns
       (Z.of_nat (size (filter (λ kv : string * future,
                                  created_at kv.2 < cutoff)
                               (_memory_store st)))
        + Z.of_nat (size (filter (λ kv : string * row,
                                    row_created_at kv.2 < cutoff)
                                 (futures_table st))))).
Proof.
  intros Hin cutoff. unfold cleanup_old_futures. rewrite Hin. fold cutoff.
  by rewrite to_remove_deleted, to_remove_length.
Qed.

(** When the cutoff is no [datetime], nothing is removed. *)
Lemma cleanup_old_futures_overflow db_ok now max_age_hours st :
  cutoff_overflows now max_age_hours = true →
  cleanup_old_futures db_ok now max_age_hours st = (st, Raises OverflowError).
Proof. intros Hout. unfold cleanup_old_futures. by rewrite Hout. Qed.

(** An age of zero never leads out of the dates. *)
Lemma cutoff_overflows_zero now : cutoff_overflows now 0 = false.
Proof. reflexivity. Qed.

(** Which futures are left after a cleanup. *)
Lemma cleanup_old_futures_lookup now max_age_hours st rid :
  cutoff_overflows now max_age_hours = false →
  let st' := (cleanup_old_futures true now max_age_hours st).1 in
  (∀ f, _memory_store st' !! rid = Some f
        ↔ _memory_store st !! rid = Some f
          ∧ ¬ created_at f < cutoff_time now max_age_hours)
  ∧ (∀ r, futures_table st' !! rid = Some r
          ↔ futures_table st !! rid = Some r
            ∧ ¬ row_created_at r < cutoff_time now max_age_hours).
Proof.
  intros Hin st'. unfold st'. rewrite cleanup_old_futures_spec by done. simpl.
  split; intros x; by rewrite map_lookup_filter_Some.
Qed.

(** When the cache and the table hold the same futures, the number returned
    is twice the number of futures removed. *)
Lemma cleanup_returns_twice_the_futures now max_age_hours st :
  cutoff_overflows now max_age_hours = false →
  same_entries st →
  (cleanup_old_futures true now max_age_hours st).2
  = Returns (2 * futures_removed st
                   (cleanup_old_futures true now max_age_hours st).1).
Proof.
  intros Hin Hsame. rewrite cleanup_old_futures_spec by done. cbn [fst snd].
  set (c := cutoff_time now max_age_hours). unfold futures_removed.
  set (old := λ kv : string * future, created_at kv.2 < c).
  set (old_row := λ kv : string * row, row_created_at kv.2 < c).
  assert (dom (filter old_row (futures_table st))
          = dom (filter old (_memory_store st))) as Hdom.
  { apply set_eq. intros k. rewrite !elem_of_dom. unfold is_Some.
    setoid_rewrite map_lookup_filter_Some. specialize (Hsame k).
    unfold old, old_row; simpl.
    destruct (_memory_store st !! k) as [f|], (futures_table st !! k) as [r|];
      simpl in Hsame; try discriminate;
      [|split; intros (x & Hx & _); discriminate].
    injection Hsame as Hsame. split.
    - intros (x & [= <-] & Hx). exists f. split; [done|]. by rewrite Hsame.
    - intros (x & [= <-] & Hx). exists r. split; [done|]. by rewrite <- Hsame. }
  assert (known_ids st
            ∖ known_ids
                {| _memory_store :=
                     filter (λ kv : string * future, ¬ created_at kv.2 < c)
                            (_memory_store st);
                   futures_table :=
                     filter (λ kv : string * row, ¬ row_created_at kv.2 < c)
                            (futures_table st) |}
          = dom (filter old (_memory_store st))) as ->.
  { unfold known_ids; simpl. apply set_eq. intros k.
    rewrite elem_of_difference, !elem_of_union, !elem_of_dom. unfold is_Some.
    setoid_rewrite map_lookup_filter_Some. specialize (Hsame k).
    unfold old; simpl.
    destruct (_memory_store st !! k) as [f|], (futures_table st !! k) as [r|];
      simpl in Hsame; try discriminate;
      [|split; [intros [[[x Hx]|[x Hx]] _]|intros (x & Hx & _)]; discriminate].
    injection Hsame as Hsame. split.
    - intros [_ Hnot]. exists f. split; [done|].
      destruct (decide (created_at f < c)) as [|Hge]; [done|].
      exfalso. apply Hnot. left. by exists f.
    - intros (x & [= <-] & Hx). split; [left; by eexists|].
      intros [(y & [= <-] & Hy)|(y & [= <-] & Hy)]; [done|].
      apply Hy. by rewrite <- Hsame. }
  f_equal.
  rewrite <- (size_dom (filter old_row (futures_table st))), Hdom, size_dom.
  fold old. lia.
Qed.

(** C6: the count returned by [cleanup_old_futures] is not the number of
    futures removed.  The store holds the single future ["r1"], in the cache
    and in the table, as [save_future] leaves it; the cleanup removes it from
    both and returns 2. *)
Theorem cleanup_counts_a_future_twice :
  known_ids store_pending = {["r1"]}
  ∧ cleanup_old_futures true 20 0 store_pending = (init ∅, Returns 2)
  ∧ futures_removed store_pending (init ∅) = 1.
Proof.
  assert (known_ids store_pending = {["r1"]}) as Hids.
  { unfold known_ids, store_pending, save_future; simpl.
    rewrite !insert_empty, !dom_singleton_L. set_solver. }
  split; [done|]. split; [vm_compute; reflexivity|].
  unfold futures_removed. rewrite Hids.
  unfold known_ids, init; simpl. rewrite !dom_empty_L.
  replace ({["r1"]} ∖ (∅ ∪ ∅) : gset string) with ({["r1"]} : gset string)
    by set_solver.
  by rewrite size_singleton.
Qed.

(** C7, as stated, fails: the cutoff moves with the clock.  With a maximum
    age of one hour, a first call made when ["r1"] (created at 10) is just
    under one hour old removes nothing; a second call 10 microseconds later,
    with no write in between, removes it from the cache and from the table
    and returns 2. *)
Lemma cleanup_second_call_removes :
  cleanup_old_futures true (hour + 5) 1 store_pending
  = (store_pending, Returns 0)
  ∧ cleanup_old_futures true (hour + 15) 1
      (cleanup_old_futures true (hour + 5) 1 store_pending).1
    = (init ∅, Returns 2).
Proof. vm_compute. by split. Qed.

(** C7, amended: when the cutoff of the first call is a date, a second
    call with the same maximum age and no write in between removes nothing,
    provided every future that outlived the first call is still not older
    than the maximum age at the time of the second call; that is so, in
    particular, when both calls read the same clock value.  The second call
    then returns 0, unless its own cutoff is no date: then it raises
    [OverflowError]. *)
Theorem cleanup_twice_removes_nothing (now1 now2 h : Z) (st : FuturesStorage) :
  cutoff_overflows now1 h = false →
  (∀ rid f, _memory_store st !! rid = Some f →
            cutoff_time now1 h ≤ created_at f →
            cutoff_time now2 h ≤ created_at f) →
  (∀ rid r, futures_table st !! rid = Some r →
            cutoff_time now1 h ≤ row_created_at r →
            cutoff_time now2 h ≤ row_created_at r) →
  cleanup_old_futures true now2 h (cleanup_old_futures true now1 h st).1
  = ((cleanup_old_futures true now1 h st).1,
     if cutoff_overflows now2 h then Raises OverflowError else Returns 0).
Proof.
  intros Hin1 Hmem Htab.
  destruct (cutoff_overflows now2 h) eqn:Hin2;
    [by apply cleanup_old_futures_overflow|].
  rewrite (cleanup_old_futures_spec now1) by done. cbn [fst].
  rewrite (cleanup_old_futures_spec now2) by done.
  cbn [_memory_store futures_table].
  set (c1 := cutoff_time now1 h) in *. set (c2 := cutoff_time now2 h) in *.
  assert (filter (λ kv : string * future, created_at kv.2 < c2)
            (filter (λ kv : string * future, ¬ created_at kv.2 < c1)
               (_memory_store st)) = ∅) as ->.
  { apply map_empty. intros k. apply map_lookup_filter_None. right.
    intros f Hf. apply map_lookup_filter_Some in Hf as [Hf Hc]. simpl in *.
    specialize (Hmem k f Hf). lia. }
  assert (filter (λ kv : string * row, row_created_at kv.2 < c2)
            (filter (λ kv : string * row, ¬ row_created_at kv.2 < c1)
               (futures_table st)) = ∅) as ->.
  { apply map_empty. intros k. apply map_lookup_filter_None. right.
    intros r Hr. apply map_lookup_filter_Some in Hr as [Hr Hc]. simpl in *.
    specialize (Htab k r Hr). lia. }
  rewrite !map_size_empty. f_equal. f_equal.
  - apply map_filter_id. intros k f Hf.
    apply map_lookup_filter_Some in Hf as [Hf Hc]. simpl in *.
    specialize (Hmem k f Hf). lia.
  - apply map_filter_id. intros k r Hr.
    apply map_lookup_filter_Some in Hr as [Hr Hc]. simpl in *.
    specialize (Htab k r Hr). lia.
Qed.

(** A second call three microseconds after the first, while ["r1"] is
    still younger than one hour. *)
Lemma cleanup_twice_removes_nothing_witness :
  cleanup_old_futures true (hour + 8) 1
    (cleanup_old_futures true (hour + 5) 1 store_pending).1
  = ((cleanup_old_futures true (hour + 5) 1 store_pending).1, Returns 0).
Proof.
  apply (cleanup_twice_removes_nothing (hour + 5) (hour + 8) 1 store_pending).
  - reflexivity.
  - intros rid f Hf _. unfold store_pending, save_future in Hf. simpl in Hf.
    apply lookup_insert_Some in Hf as [[_ <-]|[_ Hf]].
    + unfold cutoff_time, hour. simpl. lia.
    + rewrite lookup_empty in Hf. discriminate Hf.
  - intros rid r Hr _. unfold store_pending, save_future in Hr. simpl in Hr.
    apply lookup_insert_Some in Hr as [[_ <-]|[_ Hr]].
    + unfold cutoff_time, hour. simpl. lia.
    + rewrite lookup_empty in Hr. discriminate Hr.
Defined.

(** ** C8, C9, C10: the cache and the table *)

(** After [save_future] and a first [update_status], a restart changes
    nothing in what [get_future] returns. *)
Lemma recovery_after_first_update
    (st : FuturesStorage) (t0 t0' t1 : Z) (rid op st_new : string)
    (pl R : json) (mid : option string) :
  let st1 := (save_future true t0 t0' rid op pl mid st).1 in
  let st2 := (update_status true t1 rid st_new R st1).1 in
  (get_future true rid st2).2
  = Returns (Some (Future rid mid op pl st_new R t0 t1))
  ∧ (get_future true rid (restart st2)).2 = (get_future true rid st2).2.
Proof.
  intros st1 st2.
  pose proof (save_future_memory true t0 t0' rid op pl mid st) as Hm.
  pose proof (save_future_table t0 t0' rid op pl mid st) as Ht.
  fold st1 in Hm, Ht. unfold st2.
  rewrite (update_status_resident _ _ _ _ _ _ Hm).
  unfold sql_update. rewrite Ht. cbn [fst snd].
  rewrite get_future_restart. erewrite get_future_hit;
    [|simpl; by rewrite lookup_insert_eq].
  cbn [snd futures_table]. rewrite lookup_insert_eq.
  unfold set_status, row_to_future, _serialize_result; simpl.
  rewrite is_None_keep. split; [done|]. by destruct R.
Qed.

(** C8: recovery fails for a future that was updated again without a
    result.  ["r1"] is completed with result [{"x": 1}] and then receives
    [update_status("r1", "completed")]: the cache keeps the result, the
    table loses it.  Before the restart [get_future] returns [{"x": 1}],
    after the restart it returns [None]. *)
Theorem restart_loses_result_after_second_update :
  (get_future true "r1" store_completed_twice).2
  = Returns (Some (Future "r1" None "save" (JObj []) "completed"
                          (JObj [("x", JNum 1)]) 10 30))
  ∧ (get_future true "r1" (restart store_completed_twice)).2
    = Returns (Some (Future "r1" None "save" (JObj []) "completed"
                            JNull 10 30)).
Proof. vm_compute. by split. Qed.

(** C9, as stated, fails: the disagreement is not permanent.  After the
    update without a result, the cache of ["r1"] has [{"x": 1}] and the row
    has NULL.  A further [update_status] with a result writes both, and a
    get from the cache and a get after a restart agree again; so they do
    once a restart has made [get_future] load the row. *)
Lemma later_update_ends_the_disagreement :
  (get_future true "r1" store_completed_twice).2
  ≠ (get_future true "r1" (restart store_completed_twice)).2
  ∧ (get_future true "r1" store_completed_thrice).2
    = Returns (Some (Future "r1" None "save" (JObj []) "completed"
                            (JObj [("y", JNum 2)]) 10 40))
  ∧ (get_future true "r1" (restart store_completed_thrice)).2
    = (get_future true "r1" store_completed_thrice).2
  ∧ (get_future true "r1"
       (get_future true "r1" (restart store_completed_twice)).1).2
    = (get_future true "r1"
         (restart (get_future true "r1" (restart store_completed_twice)).1)).2.
Proof. vm_compute. repeat split; discriminate || reflexivity. Qed.

(** C9, amended: [update_status] without a result, on a future whose cached
    result is not [None] and which has a row: the call returns [True], the
    cached result stays, the row's result becomes NULL.  From then on, and
    until the next write to that request id, [get_future] returns the old
    result from the cache and [None] after a restart. *)
Theorem update_without_result_splits_cache_and_table
    (now : Z) (rid st_new : string) (st : FuturesStorage)
    (f : future) (r : row) (cs : list call) :
  _memory_store st !! rid = Some f →
  result f ≠ JNull →
  futures_table st !! rid = Some r →
  Forall (λ c, ¬ writes_to rid c) cs →
  let st1 := (update_status true now rid st_new JNull st).1 in
  let st2 := run_calls cs st1 in
  (update_status true now rid st_new JNull st).2 = Returns true
  ∧ result <$> _memory_store st1 !! rid = Some (result f)
  ∧ row_result <$> futures_table st1 !! rid = Some None
  ∧ (∃ g, (get_future true rid st2).2 = Returns (Some g)
          ∧ status g = st_new ∧ result g = result f)
  ∧ (∃ g, (get_future true rid (restart st2)).2 = Returns (Some g)
          ∧ status g = st_new ∧ result g = JNull)
  ∧ (get_future true rid st2).2 ≠ (get_future true rid (restart st2)).2.
Proof.
  intros Hf Hres Hr Hcs st1 st2.
  assert (_memory_store st1 !! rid = Some (set_status st_new now JNull f)
          ∧ futures_table st1 !! rid
            = Some (Row (row_request_id r) (row_model_id r) (row_operation r)
                        (row_payload r) st_new None (row_created_at r) now)
          ∧ (update_status true now rid st_new JNull st).2 = Returns true)
    as (Hm1 & Ht1 & Hret).
  { unfold st1. rewrite (update_status_resident _ _ _ _ _ _ Hf).
    unfold sql_update. rewrite Hr. simpl. by rewrite !lookup_insert_eq. }
  assert (get_future true rid st2
          = (st2, Returns (Some (set_status st_new now JNull f)))) as Hg.
  { apply get_future_hit. by apply run_calls_memory_frame. }
  assert ((get_future true rid (restart st2)).2
          = Returns (Some (row_to_future
              (Row (row_request_id r) (row_model_id r) (row_operation r)
                   (row_payload r) st_new None (row_created_at r) now)))) as Hg'.
  { rewrite get_future_restart. unfold st2.
    rewrite run_calls_table_frame by done. by rewrite Ht1. }
  split; [done|]. split; [by rewrite Hm1|]. split; [by rewrite Ht1|].
  split; [eexists; by rewrite Hg|]. split; [eexists; by rewrite Hg'|].
  rewrite Hg, Hg'. simpl. intros [= _ _ _ _ Hbad _]. done.
Qed.

Lemma update_without_result_splits_cache_and_table_witness :
  (update_status true 30 "r1" "completed" JNull store_completed).2
  = Returns true
  ∧ result <$> _memory_store store_completed_twice !! "r1"
    = Some (JObj [("x", JNum 1)])
  ∧ row_result <$> futures_table store_completed_twice !! "r1" = Some None.
Proof.
  pose proof (update_without_result_splits_cache_and_table
    30 "r1" "completed" store_completed
    (Future "r1" None "save" (JObj []) "completed" (JObj [("x", JNum 1)]) 10 20)
    (Row "r1" None "save" (json_dumps (JObj [])) "completed"
         (Some (json_dumps (JObj [("x", JNum 1)]))) 10 20)
    [CallGet true "r1"; CallGet true "r2"]) as H.
  destruct H as (H1 & H2 & H3 & _).
  - vm_compute. reflexivity.
  - simpl. intros H. discriminate H.
  - vm_compute. reflexivity.
  - repeat constructor; simpl; intros H; exact H.
  - split; [exact H1|]. split; [exact H2|exact H3].
Defined.

(** C10: [update_status] on a future that is in the cache and has no row
    returns [False], and yet the cached future has the new status, the new
    [updated_at] and, unless the result passed is [None], the new result.
    The table is as before. *)
Theorem update_status_reports_not_found_after_writing
    (now : Z) (rid st_new : string) (res : json) (st : FuturesStorage)
    (f : future) :
  _memory_store st !! rid = Some f →
  futures_table st !! rid = None →
  let '(st', ret) := update_status true now rid st_new res st in
  ret = Returns false
  ∧ futures_table st' = futures_table st
  ∧ _memory_store st'
    = <[rid := Future (request_id f) (model_id f) (operation f) (payload f)
                      st_new (if is_None res then result f else res)
                      (created_at f) now]> (_memory_store st).
Proof.
  intros Hf Hr. rewrite (update_status_resident _ _ _ _ _ _ Hf).
  unfold sql_update. rewrite Hr. done.
Qed.

Lemma update_status_reports_not_found_after_writing_witness :
  update_status true 20 "r1" "completed" (JObj [("x", JNum 1)]) store_unsaved
  = ({| _memory_store :=
          {["r1" := Future "r1" None "save" (JObj []) "completed"
                           (JObj [("x", JNum 1)]) 10 20]};
        futures_table := ∅ |}, Returns false).
Proof.
  pose proof (update_status_reports_not_found_after_writing
    20 "r1" "completed" (JObj [("x", JNum 1)]) store_unsaved
    (Future "r1" None "save" (JObj []) "pending" JNull 10 10)) as H.
  destruct (update_status true 20 "r1" "completed" (JObj [("x", JNum 1)])
              store_unsaved) as [st' ret].
  destruct H as (-> & Ht & Hm).
  - vm_compute. reflexivity.
  - vm_compute. reflexivity.
  - destruct st' as [m t]. simpl in Ht, Hm. rewrite Ht, Hm.
    vm_compute. reflexivity.
Defined.

(** ** C3: what [get_future] hands out *)

(** On a cache miss that finds a row, the dict returned is the very dict
    that was put into the cache. *)
Lemma get_future_miss_returns_cached_object db_ok rid st st' l :
  Obj._memory_store st !! rid = None →
  Obj.get_future db_ok rid st = (st', Returns (Some l)) →
  Obj._memory_store st' !! rid = Some l.
Proof.
  intros Hm. unfold Obj.get_future, Obj._load_from_db. rewrite Hm.
  destruct db_ok; [|discriminate].
  destruct (Obj.futures_table st !! rid) as [r|]; [|discriminate].
  destruct (Obj.of_json _ _) as [pl h1].
  destruct (match row_result r with Some _ => _ | None => _ end) as [res h2].
  simpl. intros [= <- <-]. simpl. by rewrite lookup_insert_eq.
Qed.

(** On a cache hit the dict returned is a new object with the items of the
    cached one: a key that holds a reference holds the same reference in
    both. *)
Lemma get_future_hit_returns_shallow_copy db_ok rid st l items :
  Obj._memory_store st !! rid = Some l →
  Obj.objs (Obj.mem_heap st) !! l = Some (Obj.ODict items) →
  ∃ st', Obj.get_future db_ok rid st
         = (st', Returns (Some (Obj.next (Obj.mem_heap st))))
    ∧ Obj.objs (Obj.mem_heap st') !! Obj.next (Obj.mem_heap st)
      = Some (Obj.ODict items)
    ∧ Obj._memory_store st' = Obj._memory_store st.
Proof.
  intros Hm Hl. unfold Obj.get_future. rewrite Hm, Hl. simpl.
  eexists. split; [done|]. simpl. by rewrite lookup_insert_eq.
Qed.

Lemma item_assign k v items : Obj.item k (Obj.assign k v items) = Some v.
Proof.
  induction items as [|[k' v'] items IH]; simpl.
  - by rewrite String.eqb_refl.
  - destruct (String.eqb k k') eqn:E; simpl; by rewrite E.
Qed.

(** So, whatever future a miss loads: an assignment to a key of the dict
    returned is seen by the next [get_future]. *)
Lemma assignment_after_miss_reaches_cache db_ok db_ok' rid st st1 l k v :
  Obj._memory_store st !! rid = None →
  Obj.get_future db_ok rid st = (st1, Returns (Some l)) →
  ∃ st2 l', Obj.get_future db_ok' rid (Obj.caller_sets l k v st1)
            = (st2, Returns (Some l'))
    ∧ Obj.getitem l' k (Obj.mem_heap st2) = Some v.
Proof.
  intros Hm Hg.
  pose proof (get_future_miss_returns_cached_object _ _ _ _ _ Hm Hg) as Hc.
  assert (∃ items, Obj.objs (Obj.mem_heap st1) !! l = Some (Obj.ODict items))
    as [items Hl].
  { revert Hg. unfold Obj.get_future, Obj._load_from_db. rewrite Hm.
    destruct db_ok; [|discriminate].
    destruct (Obj.futures_table st !! rid) as [r|]; [|discriminate].
    destruct (Obj.of_json _ _) as [pl h1].
    destruct (match row_result r with Some _ => _ | None => _ end) as [res h2].
    simpl. intros [= <- <-]. simpl. rewrite lookup_insert_eq. by eexists. }
  destruct (get_future_hit_returns_shallow_copy db_ok' rid
              (Obj.caller_sets l k v st1) l (Obj.assign k v items))
    as (st2 & Hg2 & Hcopy & _).
  - done.
  - unfold Obj.caller_sets, Obj.setitem; simpl. rewrite Hl. simpl.
    by rewrite lookup_insert_eq.
  - exists st2. eexists. split; [exact Hg2|].
    unfold Obj.getitem. rewrite Hcopy. apply item_assign.
Qed.

(** And whatever future is cached: an assignment into a dict that the copy
    refers to is an assignment into the dict the cache refers to. *)
Lemma nested_assignment_reaches_cache
    db_ok rid st l items k1 inner inner_items k2 v :
  Obj._memory_store st !! rid = Some l →
  Obj.objs (Obj.mem_heap st) !! l = Some (Obj.ODict items) →
  Obj.item k1 items = Some (Obj.VRef inner) →
  Obj.objs (Obj.mem_heap st) !! inner = Some (Obj.ODict inner_items) →
  l ≠ Obj.next (Obj.mem_heap st) →
  inner ≠ Obj.next (Obj.mem_heap st) →
  l ≠ inner →
  ∃ st1 l', Obj.get_future db_ok rid st = (st1, Returns (Some l'))
    ∧ l' ≠ l
    ∧ let st2 := Obj.caller_sets_nested l' k1 k2 v st1 in
      Obj._memory_store st2 !! rid = Some l
      ∧ Obj.getitem l k1 (Obj.mem_heap st2) = Some (Obj.VRef inner)
      ∧ Obj.getitem inner k2 (Obj.mem_heap st2) = Some v.
Proof.
  intros Hm Hl Hk Hi Hfresh Hfresh' Hne.
  destruct (get_future_hit_returns_shallow_copy db_ok rid st l items Hm Hl)
    as (st1 & Hg & Hcopy & Hmem).
  exists st1, (Obj.next (Obj.mem_heap st)). split; [done|]. split; [done|].
  assert (Obj.mem_heap st1
          = {| Obj.objs := <[Obj.next (Obj.mem_heap st) := Obj.ODict items]>
                             (Obj.objs (Obj.mem_heap st));
               Obj.next := Pos.succ (Obj.next (Obj.mem_heap st)) |}) as Hh.
  { revert Hg. unfold Obj.get_future. rewrite Hm, Hl. simpl.
    by intros [= <-]. }
  unfold Obj.caller_sets_nested, Obj.getitem. rewrite Hcopy, Hk.
  unfold Obj.caller_sets, Obj.setitem; simpl. rewrite Hh; simpl.
  rewrite lookup_insert_ne by done. rewrite Hi. simpl.
  rewrite Hmem, Hm. split; [done|].
  rewrite lookup_insert_eq.
  rewrite lookup_insert_ne by done. rewrite lookup_insert_ne by done.
  rewrite Hl. split; [done|]. apply item_assign.
Qed.

(** What the copy does protect: the cached dict itself keeps its items
    when the caller assigns to a key of the copy. *)
Lemma assignment_to_copy_keeps_cached_dict db_ok rid st l items :
  Obj._memory_store st !! rid = Some l →
  Obj.objs (Obj.mem_heap st) !! l = Some (Obj.ODict items) →
  l ≠ Obj.next (Obj.mem_heap st) →
  ∃ st1 l', Obj.get_future db_ok rid st = (st1, Returns (Some l'))
    ∧ ∀ k v, Obj.objs (Obj.mem_heap (Obj.caller_sets l' k v st1)) !! l
             = Some (Obj.ODict items).
Proof.
  intros Hm Hl Hfresh. unfold Obj.get_future. rewrite Hm, Hl. simpl.
  eexists _, _. split; [done|]. intros k v.
  unfold Obj.caller_sets, Obj.setitem; simpl. rewrite lookup_insert_eq. simpl.
  by rewrite !lookup_insert_ne.
Qed.

(** The objects built by [json.loads]. *)

Lemma json_nested_ind (P : json → Prop) :
  P JNull → (∀ b, P (JBool b)) → (∀ n, P (JNum n)) → (∀ s, P (JStr s)) →
  (∀ items, Forall P items → P (JArr items)) →
  (∀ fields, Forall (λ kv, P kv.2) fields → P (JObj fields)) →
  ∀ v, P v.
Proof.
  intros HNull HBool HNum HStr HArr HObj. fix IH 1.
  intros [|b|n|s|items|fields].
  - exact HNull.
  - apply HBool.
  - apply HNum.
  - apply HStr.
  - apply HArr. induction items as [|x items IHitems]; constructor.
    + apply IH.
    + exact IHitems.
  - apply HObj. induction fields as [|[k x] fields IHfields]; constructor.
    + apply IH.
    + exact IHfields.
Qed.

Lemma extends_refl h : extends h h.
Proof. split; [lia|done]. Qed.

Lemma extends_trans h1 h2 h3 : extends h1 h2 → extends h2 h3 → extends h1 h3.
Proof.
  intros [H1 H1'] [H2 H2']. split; [lia|]. intros l Hl.
  rewrite H2' by lia. by apply H1'.
Qed.

Lemma extends_alloc o h : extends h (Obj.alloc o h).2.
Proof.
  split; simpl; [lia|]. intros l Hl. apply lookup_insert_ne. lia.
Qed.

Lemma of_json_JArr items h :
  Obj.of_json (JArr items) h
  = let '(vs, h1) := elems_of_json items h in
    let '(l, h2) := Obj.alloc (Obj.OList vs) h1 in (Obj.VRef l, h2).
Proof. reflexivity. Qed.

Lemma of_json_JObj fields h :
  Obj.of_json (JObj fields) h
  = let '(kvs, h1) := items_of_json fields h in
    let '(l, h2) := Obj.alloc (Obj.ODict kvs) h1 in (Obj.VRef l, h2).
Proof. reflexivity. Qed.

Lemma elems_of_json_denote items :
  Forall of_json_ok items →
  ∀ h, extends h (elems_of_json items h).2
       ∧ ∃ n0 : nat, ∀ (fuel : nat) (h'' : Obj.heap),
           (n0 ≤ fuel)%nat →
           (∀ l, (Obj.next h ≤ l)%positive →
                 (l < Obj.next (elems_of_json items h).2)%positive →
                 Obj.objs h'' !! l
                 = Obj.objs (elems_of_json items h).2 !! l) →
           mapM (Obj.to_json fuel h'') (elems_of_json items h).1 = Some items.
Proof.
  induction 1 as [|x items Hx _ IH]; intros h.
  - split; [apply extends_refl|]. by exists 0%nat.
  - simpl. destruct (Hx h) as [He (n1 & Hd)].
    destruct (Obj.of_json x h) as [pv h1]. simpl in *.
    destruct (IH h1) as [He' (n2 & Hd')].
    destruct (elems_of_json items h1) as [pvs h2]. simpl in *.
    split; [by eapply extends_trans|].
    exists (n1 `max` n2)%nat. intros fuel h'' Hfuel Hagree.
    destruct He as [Hle1 Hkeep1], He' as [Hle2 Hkeep2].
    rewrite Hd; [|lia|].
    + simpl. rewrite Hd'; [done|lia|]. intros l Hl1 Hl2. apply Hagree; lia.
    + intros l Hl1 Hl2. rewrite Hagree by lia. apply Hkeep2. done.
Qed.

Lemma items_of_json_denote fields :
  Forall (λ kv, of_json_ok kv.2) fields →
  ∀ h, extends h (items_of_json fields h).2
       ∧ ∃ n0 : nat, ∀ (fuel : nat) (h'' : Obj.heap),
           (n0 ≤ fuel)%nat →
           (∀ l, (Obj.next h ≤ l)%positive →
                 (l < Obj.next (items_of_json fields h).2)%positive →
                 Obj.objs h'' !! l
                 = Obj.objs (items_of_json fields h).2 !! l) →
           mapM (λ kv : string * Obj.pyval,
                   pair kv.1 <$> Obj.to_json fuel h'' kv.2)
                (items_of_json fields h).1 = Some fields.
Proof.
  induction 1 as [|[k x] fields Hx _ IH]; intros h.
  - split; [apply extends_refl|]. by exists 0%nat.
  - simpl in *. destruct (Hx h) as [He (n1 & Hd)].
    destruct (Obj.of_json x h) as [pv h1]. simpl in *.
    destruct (IH h1) as [He' (n2 & Hd')].
    destruct (items_of_json fields h1) as [pvs h2]. simpl in *.
    split; [by eapply extends_trans|].
    exists (n1 `max` n2)%nat. intros fuel h'' Hfuel Hagree.
    destruct He as [Hle1 Hkeep1], He' as [Hle2 Hkeep2].
    rewrite Hd; [|lia|].
    + simpl. rewrite Hd'; [done|lia|]. intros l Hl1 Hl2. apply Hagree; lia.
    + intros l Hl1 Hl2. rewrite Hagree by lia. apply Hkeep2. done.
Qed.

Lemma of_json_denotes v : of_json_ok v.
Proof.
  induction v as [|b|n|s|items IH|fields IH] using json_nested_ind; intros h;
    try (split; [apply extends_refl|]; exists 0%nat; by intros [|fuel]).
  - rewrite of_json_JArr.
    destruct (elems_of_json_denote items IH h) as [He (n0 & Hd)].
    destruct (elems_of_json items h) as [vs h1]. simpl in *.
    split; [eapply extends_trans; [exact He|apply extends_alloc]|].
    exists (S n0). intros fuel h'' Hfuel Hagree. simpl in Hagree.
    destruct fuel as [|fuel]; [lia|]. simpl.
    destruct He as [Hle Hkeep].
    rewrite Hagree by lia. rewrite lookup_insert_eq.
    rewrite Hd; [done|lia|]. intros l Hl1 Hl2.
    rewrite Hagree by lia. apply lookup_insert_ne. lia.
  - rewrite of_json_JObj.
    destruct (items_of_json_denote fields IH h) as [He (n0 & Hd)].
    destruct (items_of_json fields h) as [kvs h1]. simpl in *.
    split; [eapply extends_trans; [exact He|apply extends_alloc]|].
    exists (S n0). intros fuel h'' Hfuel Hagree. simpl in Hagree.
    destruct fuel as [|fuel]; [lia|]. simpl.
    destruct He as [Hle Hkeep].
    rewrite Hagree by lia. rewrite lookup_insert_eq.
    rewrite Hd; [done|lia|]. intros l Hl1 Hl2.
    rewrite Hagree by lia. apply lookup_insert_ne. lia.
Qed.

(** The dict that [_load_from_db] builds denotes the future that the
    value-level [row_to_future] gives. *)
Lemma load_from_db_denotes (st : Obj.state) rid r :
  Obj.futures_table st !! rid = Some r →
  ∃ st' l fuel,
    Obj._load_from_db true rid st = (st', Returns (Some l))
    ∧ Obj._memory_store st' = Obj._memory_store st
    ∧ Obj.futures_table st' = Obj.futures_table st
    ∧ Obj.to_json fuel (Obj.mem_heap st') (Obj.VRef l)
      = Some (JObj (as_dict (row_to_future r))).
Proof.
  intros Hr. unfold Obj._load_from_db. rewrite Hr.
  destruct (of_json_denotes (json_loads (row_payload r)) (Obj.mem_heap st))
    as [[Hle1 Hkeep1] (n1 & Hd1)].
  destruct (Obj.of_json (json_loads (row_payload r)) (Obj.mem_heap st))
    as [pl h1]. simpl in *.
  assert (∃ res h2 n2,
    match row_result r with
    | Some t => Obj.of_json (json_loads t) h1
    | None => (Obj.VNone, h1)
    end = (res, h2)
    ∧ extends h1 h2
    ∧ ∀ (fuel : nat) (h'' : Obj.heap), (n2 ≤ fuel)%nat →
        (∀ l, (Obj.next h1 ≤ l)%positive → (l < Obj.next h2)%positive →
              Obj.objs h'' !! l = Obj.objs h2 !! l) →
        Obj.to_json fuel h'' res
        = Some (match row_result r with
                | Some t => json_loads t
                | None => JNull
                end)) as (res & h2 & n2 & -> & [Hle2 Hkeep2] & Hd2).
  { destruct (row_result r) as [t|].
    - destruct (of_json_denotes (json_loads t) h1) as [He (n2 & Hd)].
      destruct (Obj.of_json (json_loads t) h1) as [res h2].
      by exists res, h2, n2.
    - exists Obj.VNone, h1, 0%nat. split; [done|].
      split; [apply extends_refl|]. by intros [|fuel]. }
  simpl. eexists _, _, (S (n1 `max` n2)). split; [done|].
  split; [done|]. split; [done|]. simpl. rewrite lookup_insert_eq. simpl.
  rewrite Hd1; [|lia|].
  - rewrite Hd2; [|lia|].
    + unfold as_dict, row_to_future.
      by destruct (n1 `max` n2)%nat, (row_model_id r).
    + intros l Hl1 Hl2. simpl. apply lookup_insert_ne. lia.
  - intros l Hl1 Hl2. simpl. rewrite lookup_insert_ne by lia.
    apply Hkeep2. done.
Qed.

(** On a cache miss the two models of [get_future] agree: the dict handed
    out denotes the future the value-level function returns. *)
Theorem get_future_miss_agrees (st : Obj.state) (vs : FuturesStorage) rid :
  Obj._memory_store st !! rid = None →
  _memory_store vs !! rid = None →
  futures_table vs = Obj.futures_table st →
  match (get_future true rid vs).2 with
  | Returns (Some f) =>
      ∃ st' l fuel,
        Obj.get_future true rid st = (st', Returns (Some l))
        ∧ Obj.to_json fuel (Obj.mem_heap st') (Obj.VRef l)
          = Some (JObj (as_dict f))
  | Returns None => Obj.get_future true rid st = (st, Returns None)
  | Raises _ => False
  end.
Proof.
  intros Hm Hv Ht. rewrite get_future_miss by done. rewrite Ht.
  unfold Obj.get_future. rewrite Hm.
  destruct (Obj.futures_table st !! rid) as [r|] eqn:Hr.
  - destruct (load_from_db_denotes st rid r Hr)
      as (st' & l & fuel & -> & _ & _ & Hd).
    cbn [fmap option_fmap option_map]. by eexists _, l, fuel.
  - unfold Obj._load_from_db. by rewrite Hr.
Qed.

(** On the examples, the object-level functions return the futures of the
    value-level ones. *)
Lemma objects_agree_with_values :
  Obj.next_get 3 "r1" objects_restarted
  = Some (JObj (as_dict (Future "r1" None "save" (JObj []) "completed"
                                (JObj [("x", JNum 1)]) 10 20)))
  ∧ (get_future true "r1" (restart store_completed)).2
    = Returns (Some (Future "r1" None "save" (JObj []) "completed"
                            (JObj [("x", JNum 1)]) 10 20))
  ∧ Obj.next_get 3 "r1" objects_after_miss
    = Obj.next_get 3 "r1" objects_restarted.
Proof. vm_compute. by repeat split. Qed.

(** An assignment to a key of the copy returned on a cache hit does not
    reach the cache. *)
Lemma copy_protects_keys_of_the_future :
  Obj.next_get 3 "r1"
    (Obj.caller_sets 4%positive "status" (Obj.VStr "pending")
                     objects_after_hit)
  = Obj.next_get 3 "r1" objects_after_hit.
Proof. vm_compute. reflexivity. Qed.

(** C3: [get_future] does not return a defensive copy.
    - After a restart, the first [get_future "r1"] loads the row, caches the
      dict it built and returns that same dict (object 3).  The caller's
      [d["status"] = "pending"] is an assignment into the cache: the next
      [get_future] shows the completed future as pending.
    - The second [get_future "r1"] returns a copy (object 4) whose
      ["result"] is the cached result dict.  The caller's
      [d["result"]["x"] = 2] changes the cached result: the next
      [get_future] returns [{"x": 2}]. *)
Theorem get_future_exposes_the_cache :
  ((Obj.get_future true "r1" objects_restarted).2
   = Returns (Some 3%positive)
   ∧ Obj._memory_store objects_after_miss !! "r1" = Some 3%positive
   ∧ Obj.next_get 3 "r1" objects_after_miss
     = Some (JObj (as_dict (Future "r1" None "save" (JObj []) "completed"
                                   (JObj [("x", JNum 1)]) 10 20)))
   ∧ Obj.next_get 3 "r1"
       (Obj.caller_sets 3%positive "status" (Obj.VStr "pending")
                        objects_after_miss)
     = Some (JObj (as_dict (Future "r1" None "save" (JObj []) "pending"
                                   (JObj [("x", JNum 1)]) 10 20))))
  ∧ ((Obj.get_future true "r1" objects_after_miss).2
     = Returns (Some 4%positive)
     ∧ Obj._memory_store objects_after_hit !! "r1" = Some 3%positive
     ∧ Obj.next_get 3 "r1"
         (Obj.caller_sets_nested 4%positive "result" "x" (Obj.VInt 2)
                                 objects_after_hit)
       = Some (JObj (as_dict (Future "r1" None "save" (JObj []) "completed"
                                     (JObj [("x", JNum 2)]) 10 20)))).
Proof. vm_compute. by repeat split. Qed.

(** * Properties of the rest of the code *)

(** ** FuturesStorage: listing and statistics *)

Lemma filter_snd_map_to_list {A} (P : A → Prop) `{!∀ x, Decision (P x)}
    (m : gmap string A) :
  filter P (map_to_list m).*2
  = (filter (λ kv : string * A, P kv.2) (map_to_list m)).*2.
Proof.
  induction (map_to_list m) as [|[k x] l IH]; [done|].
  rewrite fmap_cons, !filter_cons. cbn [snd].
  destruct (decide (P x)); rewrite ?fmap_cons; cbn [snd]; by rewrite IH.
Qed.

Lemma length_filter_map_to_list {A} (P : string * A → Prop)
    `{!∀ x, Decision (P x)} (m : gmap string A) :
  length (filter P (map_to_list m)) = size (filter P m).
Proof.
  rewrite <- length_map_to_list.
  apply Permutation_length, NoDup_Permutation.
  - apply NoDup_filter, NoDup_map_to_list.
  - apply NoDup_map_to_list.
  - intros [k x]. rewrite list_elem_of_filter, !elem_of_map_to_list.
    rewrite map_lookup_filter_Some. tauto.
Qed.

#[local] Instance newer_first_total : Total newer_first.
Proof. intros r1 r2. unfold newer_first. lia. Qed.

#[local] Instance newer_first_trans : Transitive newer_first.
Proof. intros r1 r2 r3. unfold newer_first. lia. Qed.

(** The rows that the query selects, before LIMIT. *)
Lemma elem_of_selected_rows m s (table : gmap string row) (r : row) :
  r ∈ merge_sort newer_first
        (filter (λ r, selected m s r = true) (map_to_list table).*2)
  ↔ selected m s r = true ∧ ∃ k, table !! k = Some r.
Proof.
  rewrite merge_sort_Permutation, list_elem_of_filter, list_elem_of_fmap.
  split.
  - intros [Hs ([k r'] & -> & Hin)]. split; [done|]. exists k.
    by apply elem_of_map_to_list.
  - intros [Hs [k Hk]]. split; [done|]. exists (k, r). split; [done|].
    by apply elem_of_map_to_list.
Qed.

Lemma sql_limit_take_drop {A} limit (l : list A) :
  ∃ rest, l = (sql_limit limit l ++ rest)%list.
Proof.
  unfold sql_limit. destruct (limit <? 0).
  - exists []. by rewrite app_nil_r.
  - exists (drop (Z.to_nat limit) l). by rewrite take_drop.
Qed.

Lemma list_futures_cases m s limit st :
  list_futures true m s limit st
  = if in_int64 limit
    then Returns (row_to_future
                    <$> select_rows m s limit (futures_table st))
    else Raises OverflowError.
Proof. reflexivity. Qed.

Lemma elem_of_select_rows m s limit (table : gmap string row) (f : future) :
  f ∈ row_to_future <$> select_rows m s limit table →
  ∃ k r, table !! k = Some r ∧ selected m s r = true ∧ f = row_to_future r.
Proof.
  unfold select_rows.
  intros Hf. apply list_elem_of_fmap in Hf as (r & -> & Hr).
  destruct (sql_limit_take_drop limit
    (merge_sort newer_first
       (filter (λ r, selected m s r = true)
               (map_to_list table).*2))) as [rest Hrest].
  assert (r ∈ merge_sort newer_first
            (filter (λ r, selected m s r = true)
                    (map_to_list table).*2)) as Hin.
  { rewrite Hrest. apply elem_of_app. by left. }
  apply elem_of_selected_rows in Hin as [Hs [k Hk]]. by exists k, r.
Qed.

Lemma length_select_rows m s limit (table : gmap string row) :
  length (select_rows m s limit table)
  = let n := size (filter (λ kv : string * row, selected m s kv.2 = true)
                          table) in
    if limit <? 0 then n else Nat.min (Z.to_nat limit) n.
Proof.
  unfold select_rows.
  assert (length (merge_sort newer_first
            (filter (λ r, selected m s r = true) (map_to_list table).*2))
          = size (filter (λ kv : string * row, selected m s kv.2 = true)
                         table)) as Hlen.
  { rewrite merge_sort_Permutation, filter_snd_map_to_list, length_fmap.
    apply length_filter_map_to_list. }
  unfold sql_limit. simpl. destruct (limit <? 0); [done|].
  by rewrite length_take, Hlen.
Qed.

Lemma select_rows_newest_first m s limit (table : gmap string row) :
  let l := row_to_future <$> select_rows m s limit table in
  StronglySorted (λ f1 f2, created_at f2 ≤ created_at f1) l
  ∧ ∀ k r f, table !! k = Some r →
             selected m s r = true →
             row_to_future r ∉ l →
             f ∈ l →
             row_created_at r ≤ created_at f.
Proof.
  unfold select_rows.
  set (sorted := merge_sort newer_first
         (filter (λ r, selected m s r = true) (map_to_list table).*2)).
  assert (StronglySorted newer_first sorted) as Hsorted
    by (apply StronglySorted_merge_sort; apply _).
  destruct (sql_limit_take_drop limit sorted) as [rest Hrest].
  rewrite Hrest in Hsorted. split.
  - apply StronglySorted_fmap with (R1 := newer_first);
      [by intros r1 r2|by eapply StronglySorted_app_1_l].
  - intros k r f Hk Hs Hnot Hf.
    apply list_elem_of_fmap in Hf as (r' & -> & Hr').
    assert (r ∈ sorted) as Hin by (apply elem_of_selected_rows; eauto).
    rewrite Hrest in Hin. apply elem_of_app in Hin as [Hin|Hin].
    + exfalso. apply Hnot. by apply list_elem_of_fmap_2.
    + apply (StronglySorted_app_1_elem_of _ _ _ _ _ Hsorted Hr' Hin).
Qed.

(** X3: with a limit that is a 64-bit integer, [list_futures] returns
    futures of the table only, each from a row that passes the filters given
    (a filter that is [None] or empty is no filter; a row without model id
    passes no model filter), and as many of them as there are such rows, up
    to the limit; a negative limit is no limit.  With any other limit it
    raises [OverflowError]. *)
Theorem list_futures_selects m s limit st :
  match list_futures true m s limit st with
  | Returns l =>
      in_int64 limit = true
      ∧ (∀ f, f ∈ l →
           ∃ k r, futures_table st !! k = Some r
                  ∧ selected m s r = true ∧ f = row_to_future r)
      ∧ length l
        = let n := size (filter (λ kv : string * row,
                                   selected m s kv.2 = true)
                                (futures_table st)) in
          if limit <? 0 then n else Nat.min (Z.to_nat limit) n
  | Raises e => in_int64 limit = false ∧ e = OverflowError
  end.
Proof.
  rewrite list_futures_cases. destruct (in_int64 limit); [|done].
  split; [done|]. split.
  - apply elem_of_select_rows.
  - rewrite length_fmap. apply length_select_rows.
Qed.

(** X4: the list that [list_futures] returns is ordered by [created_at],
    newest first, and the limit cuts off the oldest: a row that passes the
    filters and is not in the list is not newer than any future of the
    list.  The list is returned for every limit that is a 64-bit integer;
    for any other limit [OverflowError] is raised. *)
Theorem list_futures_newest_first m s limit st :
  match list_futures true m s limit st with
  | Returns l =>
      in_int64 limit = true
      ∧ StronglySorted (λ f1 f2, created_at f2 ≤ created_at f1) l
      ∧ ∀ k r f, futures_table st !! k = Some r →
                 selected m s r = true →
                 row_to_future r ∉ l →
                 f ∈ l →
                 row_created_at r ≤ created_at f
  | Raises e => in_int64 limit = false ∧ e = OverflowError
  end.
Proof.
  rewrite list_futures_cases. destruct (in_int64 limit); [|done].
  split; [done|]. apply select_rows_newest_first.
Qed.

Lemma count_by_status_lookup (table : gmap string row) (s : string) :
  count_by_status table !! s
  = if decide (size (with_status s table) = 0)%nat then None
    else Some (Z.of_nat (size (with_status s table))).
Proof.
  unfold count_by_status. revert s.
  set (P := λ (acc : gmap string Z) (m : gmap string row), ∀ s,
    acc !! s = if decide (size (with_status s m) = 0)%nat then None
               else Some (Z.of_nat (size (with_status s m)))).
  change (P (map_fold (λ _ r acc,
                 <[row_status r := default 0 (acc !! row_status r) + 1]> acc)
               ∅ table) table).
  apply map_fold_weak_ind; unfold P; clear P.
  - intros s. unfold with_status. by rewrite map_filter_empty, map_size_empty.
  - intros i r m acc Hi IH s. unfold with_status in *.
    destruct (decide (row_status r = s)) as [<-|Hne].
    + rewrite lookup_insert_eq, map_filter_insert_True by done.
      rewrite map_size_insert_None
        by (apply map_lookup_filter_None; by left).
      rewrite IH. repeat case_decide; simpl; try lia; f_equal; lia.
    + rewrite lookup_insert_ne by done.
      rewrite map_filter_insert_False by done.
      rewrite delete_id by done. apply IH.
Qed.

Lemma sum_values_insert (m : gmap string Z) k v :
  sum_values (<[k := v]> m) = v + sum_values m - default 0 (m !! k).
Proof.
  unfold sum_values.
  rewrite <- insert_delete_eq.
  rewrite map_fold_insert_L; [|intros; lia|apply lookup_delete_eq].
  destruct (m !! k) as [x|] eqn:Hk; simpl.
  - rewrite (map_fold_delete_L _ _ k x m); [lia|intros; lia|done].
  - rewrite delete_id by done. lia.
Qed.

Lemma sum_values_count_by_status (table : gmap string row) :
  sum_values (count_by_status table) = Z.of_nat (size table).
Proof.
  unfold count_by_status.
  set (P := λ (acc : gmap string Z) (m : gmap string row),
    sum_values acc = Z.of_nat (size m)).
  change (P (map_fold (λ _ r acc,
                 <[row_status r := default 0 (acc !! row_status r) + 1]> acc)
               ∅ table) table).
  apply map_fold_weak_ind; unfold P; clear P.
  - unfold sum_values. by rewrite map_fold_empty, map_size_empty.
  - intros i r m acc Hi IH. rewrite sum_values_insert, IH.
    rewrite map_size_insert_None by done. lia.
Qed.

(** X5: in the dict of [get_stats], a status other than ["total"] and
    ["in_memory"] maps to the number of rows with that status and is missing
    when there is none; ["total"] is the number of rows and ["in_memory"] the
    size of the cache. *)
Theorem get_stats_counts (st : FuturesStorage) (s : string) :
  s ≠ "total" → s ≠ "in_memory" →
  ∃ stats, get_stats true st = Returns stats
    ∧ stats !! s
      = (if decide (size (with_status s (futures_table st)) = 0)%nat then None
         else Some (Z.of_nat (size (with_status s (futures_table st)))))
    ∧ stats !! "total" = Some (Z.of_nat (size (futures_table st)))
    ∧ stats !! "in_memory" = Some (Z.of_nat (size (_memory_store st))).
Proof.
  intros H1 H2. eexists. split; [reflexivity|].
  split; [|split].
  - rewrite !lookup_insert_ne by done. apply count_by_status_lookup.
  - rewrite lookup_insert_ne by done. by rewrite lookup_insert_eq.
  - by rewrite lookup_insert_eq.
Qed.

Lemma get_stats_counts_witness :
  ∃ stats, get_stats true store_completed = Returns stats
    ∧ stats !! "completed"
      = (if decide (size (with_status "completed"
                            (futures_table store_completed)) = 0)%nat
         then None
         else Some (Z.of_nat (size (with_status "completed"
                                      (futures_table store_completed)))))
    ∧ stats !! "total" = Some (Z.of_nat (size (futures_table store_completed)))
    ∧ stats !! "in_memory"
      = Some (Z.of_nat (size (_memory_store store_completed))).
Proof.
  apply (get_stats_counts store_completed "completed");
    intros H; discriminate H.
Defined.

(** X6: when no future has the status ["total"] or ["in_memory"], the
    counts by status of [get_stats] add up to its ["total"]. *)
Theorem get_stats_counts_add_up (st : FuturesStorage) :
  (∀ k r, futures_table st !! k = Some r →
          row_status r ≠ "total" ∧ row_status r ≠ "in_memory") →
  ∃ stats, get_stats true st = Returns stats
    ∧ sum_values (delete "in_memory" (delete "total" stats))
      = default 0 (stats !! "total").
Proof.
  intros Hst. eexists. split; [reflexivity|].
  assert (∀ s, (s = "total" ∨ s = "in_memory") →
               count_by_status (futures_table st) !! s = None) as Hnone.
  { intros s Hs. rewrite count_by_status_lookup. rewrite decide_True; [done|].
    apply map_size_empty_iff, map_empty. intros k.
    apply map_lookup_filter_None. right. intros r Hr Hbad. simpl in Hbad.
    destruct (Hst k r Hr) as [Ht Hm]. destruct Hs; congruence. }
  rewrite lookup_insert_ne by done. rewrite lookup_insert_eq. simpl.
  rewrite (delete_insert_ne _ "total" "in_memory") by done.
  rewrite !delete_insert_eq.
  rewrite (delete_id _ "total") by (apply Hnone; auto).
  rewrite delete_id by (apply Hnone; auto).
  apply sum_values_count_by_status.
Qed.

Lemma get_stats_counts_add_up_witness :
  ∃ stats, get_stats true store_pending = Returns stats
    ∧ sum_values (delete "in_memory" (delete "total" stats))
      = default 0 (stats !! "total").
Proof.
  apply (get_stats_counts_add_up store_pending).
  intros k r Hr. unfold store_pending, save_future in Hr. simpl in Hr.
  apply lookup_insert_Some in Hr as [[_ <-]|[_ Hr]].
  - split; intros H; discriminate H.
  - rewrite lookup_empty in Hr. discriminate Hr.
Defined.

(** ** FuturesStorage: request ids are independent, restarts lose nothing *)

(** X7: [save_future], [update_status] and [get_future] for one request id
    leave the cached future and the row of every other request id as they
    are, whether the database answers or not. *)
Theorem other_request_ids_untouched (c : call) (st : FuturesStorage)
    (rid : string) :
  target c ≠ rid →
  _memory_store (run_call c st) !! rid = _memory_store st !! rid
  ∧ futures_table (run_call c st) !! rid = futures_table st !! rid.
Proof.
  intros Hne. split.
  - destruct c as [ok t1 t2 r op pl mid|ok now r s res|ok r]; simpl in *.
    + unfold save_future. destruct ok; simpl; by rewrite lookup_insert_ne.
    + unfold update_status, _load_from_db.
      destruct (_memory_store st !! r) as [g|]; simpl.
      * destruct ok; simpl; [destruct (sql_update _ _ _ _ _)|]; simpl;
          by rewrite lookup_insert_ne.
      * destruct ok; simpl; [|done].
        destruct (futures_table st !! r); simpl; [|done].
        destruct (sql_update _ _ _ _ _); simpl. by rewrite lookup_insert_ne.
    + unfold get_future, _load_from_db.
      destruct (_memory_store st !! r) as [g|]; simpl; [done|].
      destruct ok; simpl; [|done].
      destruct (futures_table st !! r); simpl; [|done].
      by rewrite lookup_insert_ne.
  - apply run_call_table_frame.
    destruct c; simpl in *; congruence.
Qed.

Lemma other_request_ids_untouched_witness :
  _memory_store
    (run_call (CallUpdate false 30 "r2" "failed" JNull) store_completed)
    !! "r1"
  = _memory_store store_completed !! "r1"
  ∧ futures_table
      (run_call (CallUpdate false 30 "r2" "failed" JNull) store_completed)
      !! "r1"
    = futures_table store_completed !! "r1".
Proof.
  apply (other_request_ids_untouched
           (CallUpdate false 30 "r2" "failed" JNull) store_completed "r1").
  simpl. intros H. discriminate H.
Defined.

(** X8: what [save_future] and a following [update_status] have written
    survives a restart: [get_future] on the restarted store returns the
    future that it returned before, with the same status, payload, result
    and timestamps. *)
Theorem restart_keeps_what_was_written
    (st : FuturesStorage) (t0 t0' t1 : Z) (rid op st_new : string)
    (pl R : json) (mid : option string) :
  let st1 := (save_future true t0 t0' rid op pl mid st).1 in
  let st2 := (update_status true t1 rid st_new R st1).1 in
  (get_future true rid (restart st1)).2
  = Returns (Some (Future rid mid op pl "pending" JNull t0 t0'))
  ∧ (get_future true rid (restart st2)).2
    = Returns (Some (Future rid mid op pl st_new R t0 t1))
  ∧ (get_future true rid (restart st2)).2 = (get_future true rid st2).2.
Proof.
  intros st1 st2.
  destruct (recovery_after_first_update st t0 t0' t1 rid op st_new pl R mid)
    as [Hbefore Hafter].
  fold st1 in Hbefore, Hafter. fold st2 in Hbefore, Hafter.
  split; [|split; [by rewrite Hafter|done]].
  rewrite get_future_restart. unfold st1.
  by rewrite save_future_table.
Qed.

(** ** TaskManager: what ends up in the store *)

(** While ["r2"] runs, ["r1"] ends and ["r2"] is polled. *)
Lemma submitted_once_running_is_pending_witness :
  ∃ f, get_future true "r2"
         (futures_storage
            (run [ Submit 10 "r1" "save" "m1" (JObj [])
                          (Returns (JObj [("x", JNum 1)]));
                   Submit 20 "r2" "train" "m1" (JObj [])
                          (Raises (Exception "boom"));
                   Finish 30 "r1"; Poll "r2" ] server_started))
       = (futures_storage
            (run [ Submit 10 "r1" "save" "m1" (JObj [])
                          (Returns (JObj [("x", JNum 1)]));
                   Submit 20 "r2" "train" "m1" (JObj [])
                          (Raises (Exception "boom"));
                   Finish 30 "r1"; Poll "r2" ] server_started),
          Returns (Some f))
       ∧ status f = "pending".
Proof.
  apply (submitted_once_running_is_pending _ "r2" (Raises (Exception "boom"))).
  - simpl. split; [set_solver|]. split; [set_solver|done].
  - vm_compute. reflexivity.
Defined.

(** X9: when the work succeeds and the database fails while the success is
    recorded, the handler of [wrapped_task] takes the database error for an
    error of the work: the task ends normally and the cached future is
    failed, with the database error as its message in place of the result of
    the work. *)
Theorem unrecorded_success_becomes_failure
    (tm : TaskManager) (t1 t2 : Z) (rid : string) (res : json) (f : future) :
  _memory_store (futures_storage tm) !! rid = Some f →
  let '(tm', ended) := wrapped_task false true t1 t2 rid (Returns res) tm in
  ended = Returns tt
  ∧ _memory_store (futures_storage tm') !! rid
    = Some (Future (request_id f) (model_id f) (operation f) (payload f)
                   "failed" (JObj [("error", JStr (str sqlite3_Error))])
                   (created_at f) t2)
  ∧ _active_tasks tm' !! rid = None.
Proof.
  intros Hf. unfold wrapped_task, update_status at 1. rewrite Hf. simpl.
  unfold update_status, sql_update. simpl. rewrite lookup_insert_eq. simpl.
  destruct (futures_table (futures_storage tm) !! rid); simpl;
    by rewrite lookup_insert_eq, lookup_delete_eq.
Qed.

Lemma unrecorded_success_becomes_failure_witness :
  _memory_store
    (futures_storage
       (wrapped_task false true 20 21 "r1" (Returns (JObj [("x", JNum 1)]))
          {| futures_storage := store_pending; _active_tasks := ∅ |}).1)
    !! "r1"
  = Some (Future "r1" None "save" (JObj []) "failed"
                 (JObj [("error", JStr "sqlite3.Error")]) 10 21).
Proof.
  pose proof (unrecorded_success_becomes_failure
    {| futures_storage := store_pending; _active_tasks := ∅ |}
    20 21 "r1" (JObj [("x", JNum 1)])
    (Future "r1" None "save" (JObj []) "pending" JNull 10 10)) as H.
  destruct (wrapped_task false true 20 21 "r1" _ _) as [tm' ended].
  destruct H as (_ & H & _).
  - vm_compute. reflexivity.
  - exact H.
Defined.

(** X10: a request id that is submitted again while its first task runs.
    The second [create_task] resets the future to pending with the new
    operation and payload and replaces the handle.  When the first task ends,
    its result is written into the future of the second submission and the
    handle of the second task is removed, though that task has not run. *)
Theorem resubmitted_id_is_finished_by_the_first_task
    (tm : TaskManager) (t1 t2 t3 : Z) (rid op1 op2 mid1 mid2 : string)
    (pl1 pl2 res1 : json) (work2 : outcome json) :
  let tm1 := (create_task true t1 t1 rid op1 mid1 pl1 (Returns res1) tm).1 in
  let tm2 := (create_task true t2 t2 rid op2 mid2 pl2 work2 tm1).1 in
  let tm3 := (wrapped_task true true t3 t3 rid (Returns res1) tm2).1 in
  _active_tasks tm2 !! rid = Some work2
  ∧ (get_future true rid (futures_storage tm2)).2
    = Returns (Some (Future rid (Some mid2) op2 pl2 "pending" JNull t2 t2))
  ∧ (get_future true rid (futures_storage tm3)).2
    = Returns (Some (Future rid (Some mid2) op2 pl2 "completed" res1 t2 t3))
  ∧ _active_tasks tm3 !! rid = None.
Proof.
  intros tm1 tm2 tm3.
  assert (_active_tasks tm2 !! rid = Some work2
          ∧ _memory_store (futures_storage tm2) !! rid
            = Some (Future rid (Some mid2) op2 pl2 "pending" JNull t2 t2))
    as [Ha Hm].
  { unfold tm2, create_task, save_future; simpl.
    by rewrite !lookup_insert_eq. }
  split; [done|]. split; [by erewrite get_future_hit|].
  destruct (wrapped_task_storage t3 rid (Returns res1) tm2) as [Hs Hact].
  fold tm3 in Hs, Hact. rewrite Hs, Hact.
  rewrite (update_status_resident _ _ _ _ _ _ Hm).
  split; [|by rewrite lookup_delete_eq].
  erewrite get_future_hit; [|simpl; by rewrite lookup_insert_eq].
  simpl. unfold set_status; simpl. by rewrite is_None_keep.
Qed.

(** X11: a task whose work ends with an exception that [except Exception]
    does not catch, as a cancellation does: nothing is written, the future
    stays pending, the retrieval endpoint keeps answering 408, the handle is
    removed and the exception leaves the task. *)
Theorem cancelled_work_leaves_the_future_pending
    (tm : TaskManager) (t0 t1 t2 now : Z) (rid op mid m : string) (pl : json)
    (db_ok1 db_ok2 : bool) (futures_store : gmap string pydict)
    (poll_tracking : gmap string poll_entry) :
  let work : outcome json := Raises (BaseException m) in
  let tm1 := (create_task true t0 t0 rid op mid pl work tm).1 in
  let '(tm2, ended) := wrapped_task db_ok1 db_ok2 t1 t2 rid work tm1 in
  ended = Raises (BaseException m)
  ∧ futures_storage tm2 = futures_storage tm1
  ∧ (get_future true rid (futures_storage tm2)).2
    = Returns (Some (Future rid (Some mid) op pl "pending" JNull t0 t0))
  ∧ (retrieve_future true now rid (futures_storage tm2) futures_store
                     poll_tracking).2
    = HTTPException 408 (JStr "Operation still in progress")
  ∧ _active_tasks tm2 !! rid = None.
Proof.
  intros work tm1. subst work. rewrite base_exception_leaves_the_task.
  assert (_memory_store (futures_storage tm1) !! rid
          = Some (Future rid (Some mid) op pl "pending" JNull t0 t0)) as Hm.
  { unfold tm1, create_task, save_future; simpl. by rewrite lookup_insert_eq. }
  split; [done|]. split; [done|]. simpl.
  split; [by erewrite get_future_hit|].
  split; [|by rewrite lookup_delete_eq].
  unfold retrieve_future. erewrite get_future_hit by done. done.
Qed.

(** ** The retrieval endpoint: polling *)

Lemma record_poll_lookup now rid (polls : gmap string poll_entry) :
  record_poll now rid polls
  = <[rid := match polls !! rid with
             | Some e => PollEntry (start_time e) (count e + 1)
             | None => PollEntry now 1
             end]> polls.
Proof.
  unfold record_poll. apply map_eq. intros k.
  destruct (decide (k = rid)) as [->|Hne].
  - rewrite lookup_insert_eq, lookup_alter_eq.
    destruct (polls !! rid) as [e|] eqn:He; [by rewrite He|].
    by rewrite lookup_insert_eq.
  - rewrite lookup_insert_ne, lookup_alter_ne by done.
    destruct (polls !! rid); [done|]. by rewrite lookup_insert_ne.
Qed.

Lemma retrieve_future_pending db_ok now rid storage fs polls f :
  _memory_store storage !! rid = Some f →
  status f ≠ "completed" → status f ≠ "failed" →
  retrieve_future db_ok now rid storage fs polls
  = (storage, record_poll now rid polls, still_in_progress).
Proof.
  intros Hf Hc Hfl. unfold retrieve_future.
  rewrite (get_future_hit _ _ _ _ Hf), dict_lookup_status. simpl.
  apply String.eqb_neq in Hc, Hfl. by rewrite Hc, Hfl.
Qed.

Lemma poll_all_pending db_ok nows rid storage fs polls f e :
  _memory_store storage !! rid = Some f →
  status f ≠ "completed" → status f ≠ "failed" →
  polls !! rid = Some e →
  poll_all db_ok nows rid storage fs polls
  = (storage,
     <[rid := PollEntry (start_time e) (count e + Z.of_nat (length nows))]>
       polls,
     replicate (length nows) still_in_progress).
Proof.
  intros Hf Hc Hfl. revert polls e.
  induction nows as [|now rest IH]; intros polls e He.
  - simpl. rewrite Z.add_0_r. destruct e. by rewrite insert_id.
  - cbn [poll_all]. rewrite (retrieve_future_pending _ _ _ _ _ _ f) by done.
    rewrite record_poll_lookup, He.
    erewrite IH by apply lookup_insert_eq.
    rewrite insert_insert_eq. cbn [start_time count length replicate].
    replace (count e + 1 + Z.of_nat (length rest))
      with (count e + Z.of_nat (S (length rest))) by lia.
    done.
Qed.

(** X12: while a cached future is neither completed nor failed, every call
    of [retrieve_future] answers 408 and leaves the storage as it is; after
    the calls the poll entry of the request id has the clock reading of the
    first call as its start time and the number of calls as its count, and
    the entries of other request ids are as before. *)
Theorem pending_polls_are_counted db_ok (t : Z) (ts : list Z) rid storage
    (fs : gmap string pydict) (polls : gmap string poll_entry) f :
  _memory_store storage !! rid = Some f →
  status f ≠ "completed" → status f ≠ "failed" →
  polls !! rid = None →
  poll_all db_ok (t :: ts) rid storage fs polls
  = (storage,
     <[rid := PollEntry t (Z.of_nat (length (t :: ts)))]> polls,
     replicate (length (t :: ts)) still_in_progress).
Proof.
  intros Hf Hc Hfl Hp. cbn [poll_all].
  rewrite (retrieve_future_pending _ _ _ _ _ _ f) by done.
  rewrite record_poll_lookup, Hp.
  erewrite (poll_all_pending _ _ _ _ _ _ f) by (done || apply lookup_insert_eq).
  rewrite insert_insert_eq. cbn [start_time count length replicate].
  replace (1 + Z.of_nat (length ts)) with (Z.of_nat (S (length ts))) by lia.
  done.
Qed.

Lemma pending_polls_are_counted_witness :
  poll_all true [100; 105; 110] "r1" store_pending ∅ ∅
  = (store_pending, {["r1" := PollEntry 100 3]},
     [still_in_progress; still_in_progress; still_in_progress]).
Proof.
  rewrite (pending_polls_are_counted true 100 [105; 110] "r1" store_pending
             ∅ ∅ (Future "r1" None "save" (JObj []) "pending" JNull 10 10)).
  - reflexivity.
  - vm_compute. reflexivity.
  - simpl. discriminate.
  - simpl. discriminate.
  - apply lookup_empty.
Defined.

(** What [retrieve_future] leaves in the storage: the storage itself, or the
    storage with the row of the request id loaded into the cache. *)
Lemma retrieve_future_storage db_ok now rid storage fs polls :
  (retrieve_future db_ok now rid storage fs polls).1.1
  = (get_future db_ok rid storage).1.
Proof.
  unfold retrieve_future.
  destruct (get_future db_ok rid storage) as [s [found|e]]; [|done].
  destruct (match found with Some f => _ | None => _ end) as [fut|]; [|done].
  destruct (dict_lookup "status" fut) as [st|]; [|done].
  by destruct (eq_str st "completed"), (eq_str st "failed").
Qed.

Lemma get_future_reads db_ok rid rid' st :
  futures_table (get_future db_ok rid st).1 = futures_table st
  ∧ (get_future true rid' (get_future db_ok rid st).1).2
    = (get_future true rid' st).2.
Proof.
  unfold get_future at 1 3, _load_from_db.
  destruct (_memory_store st !! rid) as [f|] eqn:Hm; [done|].
  destruct db_ok; [|done].
  destruct (futures_table st !! rid) as [r|] eqn:Hr; [|done]. simpl.
  split; [done|]. destruct (decide (rid' = rid)) as [->|Hne].
  - erewrite get_future_hit by apply lookup_insert_eq.
    rewrite get_future_miss by done. by rewrite Hr.
  - unfold get_future, _load_from_db. simpl.
    rewrite lookup_insert_ne by done.
    destruct (_memory_store st !! rid'); [done|].
    by destruct (futures_table st !! rid').
Qed.

(** X13: [retrieve_future] only reads the futures.  Whatever it answers,
    the table is as before, [get_future] returns for every request id what
    it returned before, and the poll entries of the other request ids are
    untouched. *)
Theorem retrieve_future_only_reads db_ok now rid storage
    (fs : gmap string pydict) (polls : gmap string poll_entry) :
  let '(s, polls', _) := retrieve_future db_ok now rid storage fs polls in
  futures_table s = futures_table storage
  ∧ (∀ rid', (get_future true rid' s).2 = (get_future true rid' storage).2)
  ∧ (∀ rid', rid' ≠ rid → polls' !! rid' = polls !! rid').
Proof.
  pose proof (retrieve_future_storage db_ok now rid storage fs polls) as Hs.
  assert (∀ rid', rid' ≠ rid →
            (retrieve_future db_ok now rid storage fs polls).1.2 !! rid'
            = polls !! rid') as Hp.
  { intros rid' Hne. unfold retrieve_future.
    assert (record_poll now rid polls !! rid' = polls !! rid') as Hrec
      by (rewrite record_poll_lookup; by rewrite lookup_insert_ne).
    destruct (get_future db_ok rid storage) as [s [found|e]]; [|done].
    destruct (match found with Some f => _ | None => _ end) as [fut|];
      [|done].
    destruct (dict_lookup "status" fut) as [st|]; [|done].
    destruct (eq_str st "completed"), (eq_str st "failed"); simpl;
      by rewrite ?lookup_delete_ne. }
  destruct (retrieve_future db_ok now rid storage fs polls) as [[s polls'] a].
  simpl in Hs, Hp. subst s.
  split; [apply (get_future_reads db_ok rid rid storage)|].
  split; [|done]. intros rid'. apply get_future_reads.
Qed.

Lemma get_future_again rid st :
  get_future true rid (get_future true rid st).1
  = ((get_future true rid st).1, (get_future true rid st).2).
Proof.
  unfold get_future at 2 3 4, _load_from_db.
  destruct (_memory_store st !! rid) as [f|] eqn:Hm.
  - by apply get_future_hit.
  - destruct (futures_table st !! rid) as [r|] eqn:Hr; simpl.
    + by erewrite get_future_hit by apply lookup_insert_eq.
    + unfold get_future, _load_from_db. by rewrite Hm, Hr.
Qed.

(** X14: with the database answering, asking again gives the same answer:
    a second [retrieve_future] for the request id, at any later moment and
    with nothing written in between, answers as the first did and leaves
    the storage as the first left it. *)
Theorem retrieve_future_answers_again now1 now2 rid storage
    (fs : gmap string pydict) (polls : gmap string poll_entry) :
  let '(s1, polls1, answer1) :=
    retrieve_future true now1 rid storage fs polls in
  let '(s2, polls2, answer2) :=
    retrieve_future true now2 rid s1 fs polls1 in
  answer2 = answer1 ∧ s2 = s1.
Proof.
  pose proof (get_future_again rid storage) as Hagain.
  unfold retrieve_future.
  destruct (get_future true rid storage) as [s1 [found|e]]; simpl in Hagain;
    [|by rewrite Hagain].
  destruct (match found with Some f => _ | None => _ end) as [fut|] eqn:Hfut;
    [|by rewrite Hagain, Hfut].
  destruct (dict_lookup "status" fut) as [st|] eqn:Hst;
    [|by rewrite Hagain, Hfut, Hst].
  destruct (eq_str st "completed") eqn:Hc;
    [|destruct (eq_str st "failed") eqn:Hfl];
    by rewrite Hagain, Hfut, Hst, Hc, ?Hfl.
Qed.

(** X15: the legacy store is a fallback.  When the storage has the future,
    in its cache or in its table, the answer of [retrieve_future] does not
    depend on the legacy store. *)
Theorem legacy_store_is_consulted_last now rid storage
    (fs1 fs2 : gmap string pydict) (polls : gmap string poll_entry) f :
  (get_future true rid storage).2 = Returns (Some f) →
  retrieve_future true now rid storage fs1 polls
  = retrieve_future true now rid storage fs2 polls.
Proof.
  intros Hget. unfold retrieve_future.
  destruct (get_future true rid storage) as [s found]. simpl in Hget.
  by subst found.
Qed.

Lemma legacy_store_is_consulted_last_witness :
  retrieve_future true 100 "r1" store_completed
                  {["r1" := [("status", JStr "failed")]]} ∅
  = retrieve_future true 100 "r1" store_completed ∅ ∅.
Proof.
  apply (legacy_store_is_consulted_last 100 "r1" store_completed _ _ ∅
           (Future "r1" None "save" (JObj []) "completed"
                   (JObj [("x", JNum 1)]) 10 20)).
  vm_compute. reflexivity.
Defined.

(** ** Cleanup: the endpoint and the storage *)

Lemma foldr_delete_filter {A} (P : string * A → Prop)
    `{!∀ x, Decision (P x)} (m : gmap string A) :
  foldr delete m (filter P (map_to_list m)).*1 = filter (λ kv, ¬ P kv) m.
Proof.
  apply map_eq. intros k.
  destruct (m !! k) as [x|] eqn:Hk.
  - destruct (decide (P (k, x))) as [Hp|Hp].
    + rewrite lookup_foldr_delete.
      * symmetry. apply map_lookup_filter_None. right.
        intros y Hy. assert (y = x) as -> by congruence. by intros [].
      * apply list_elem_of_fmap. exists (k, x). split; [done|].
        apply list_elem_of_filter. split; [done|].
        by apply elem_of_map_to_list.
    + rewrite lookup_foldr_delete_not_elem_of.
      * rewrite Hk. symmetry. by apply map_lookup_filter_Some.
      * intros Hin. apply list_elem_of_fmap in Hin as ([k' y] & -> & Hin).
        apply list_elem_of_filter in Hin as [Hold Hin].
        apply elem_of_map_to_list in Hin. simpl in *.
        assert (y = x) as -> by congruence. done.
  - rewrite lookup_foldr_delete_not_elem_of.
    + rewrite Hk. symmetry. apply map_lookup_filter_None. by left.
    + intros Hin. apply list_elem_of_fmap in Hin as ([k' y] & -> & Hin).
      apply list_elem_of_filter in Hin as [_ Hin].
      apply elem_of_map_to_list in Hin. simpl in *. congruence.
Qed.

(** X16: with the database answering and a cutoff that is a date,
    [cleanup_futures] deletes from the legacy store exactly the futures
    whose [created_at] is read by [fromisoformat] as a time before the
    cutoff, and reports in [futures_cleaned] the number that
    [cleanup_old_futures] returned plus the number of legacy futures
    deleted.  With a cutoff that is no date it answers 500 with the text of
    the [OverflowError] and leaves both stores as they were. *)
Theorem cleanup_futures_counts_both_stores (ts : string → option Z)
    (utcnow now max_age_hours : Z) (st : FuturesStorage)
    (fs : gmap string pydict) :
  let cutoff := now - max_age_hours * hour in
  if cutoff_overflows utcnow max_age_hours then
    cleanup_futures ts true utcnow now max_age_hours st fs
    = (st, fs, HTTPError 500 (str OverflowError))
  else
    ∃ removed_count r,
      cleanup_old_futures true utcnow max_age_hours st
      = ((cleanup_old_futures true utcnow max_age_hours st).1,
         Returns removed_count)
      ∧ cleanup_futures ts true utcnow now max_age_hours st fs
        = ((cleanup_old_futures true utcnow max_age_hours st).1,
           filter (λ kv, legacy_expired ts cutoff kv.2 ≠ true) fs,
           Responds r)
      ∧ futures_cleaned r
        = removed_count
          + Z.of_nat (size (filter (λ kv,
                                      legacy_expired ts cutoff kv.2 = true)
                                   fs)).
Proof.
  intros cutoff. unfold cleanup_futures, cleanup_old_futures.
  destruct (cutoff_overflows utcnow max_age_hours); [done|].
  eexists _, _. split; [reflexivity|]. fold cutoff. cbn [fst].
  rewrite (foldr_delete_filter
             (λ kv : string * pydict, legacy_expired ts cutoff kv.2 = true)).
  split; [reflexivity|]. simpl.
  by rewrite !length_fmap, !length_filter_map_to_list.
Qed.

(** X17: a legacy future without [created_at], or with one that
    [fromisoformat] does not read, is never removed by [cleanup_futures],
    at whatever time and for whatever age it is called. *)
Theorem undated_legacy_future_is_never_cleaned (ts : string → option Z)
    (db_ok : bool) (utcnow now max_age_hours : Z) (st : FuturesStorage)
    (fs : gmap string pydict) (rid : string) (fut : pydict) :
  fs !! rid = Some fut →
  match dict_lookup "created_at" fut with
  | Some (JStr s) => ts s = None
  | Some _ => True
  | None => True
  end →
  (cleanup_futures ts db_ok utcnow now max_age_hours st fs).1.2 !! rid
  = Some fut.
Proof.
  intros Hfut Hdate. unfold cleanup_futures.
  destruct (cleanup_old_futures db_ok utcnow max_age_hours st)
    as [s [n|[m|m]]]; simpl; [|done..].
  rewrite foldr_delete_filter. apply map_lookup_filter_Some.
  split; [done|]. simpl. unfold legacy_expired, dict_get.
  destruct (dict_lookup "created_at" fut) as [[|b|n'|d|items|fields]|];
    simpl; try done.
  - by destruct b.
  - by destruct (negb _).
  - rewrite Hdate. by destruct (negb _).
  - by destruct items.
  - by destruct fields.
Qed.

Lemma undated_legacy_future_is_never_cleaned_witness :
  (cleanup_futures reads_epoch_only true 100 100 0 store_completed
     legacy_two).1.2 !! "odd"
  = Some [("status", JStr "completed"); ("created_at", JStr "yesterday")].
Proof.
  apply undated_legacy_future_is_never_cleaned.
  - vm_compute. reflexivity.
  - vm_compute. reflexivity.
Defined.

(** X18: when the database fails, [cleanup_futures] answers 500 and does
    not reach the legacy store, which stays as it was; the table keeps all
    its rows, so every future of the table can still be retrieved.  With a
    cutoff that is a date, the answer has the text of the database error and
    the cache has already lost its futures older than the cutoff.  With a
    cutoff that is no date, the answer has the text of the [OverflowError]
    and the cache is as it was. *)
Theorem cleanup_futures_database_failure (ts : string → option Z)
    (utcnow now max_age_hours : Z) (st : FuturesStorage)
    (fs : gmap string pydict) :
  let '(s, fs', answer) :=
    cleanup_futures ts false utcnow now max_age_hours st fs in
  fs' = fs
  ∧ futures_table s = futures_table st
  ∧ (∀ rid r, futures_table st !! rid = Some r →
              ∃ f, (get_future true rid s).2 = Returns (Some f))
  ∧ if cutoff_overflows utcnow max_age_hours then
      answer = HTTPError 500 (str OverflowError) ∧ s = st
    else
      answer = HTTPError 500 (str sqlite3_Error)
      ∧ ∀ rid f, _memory_store s !! rid = Some f
                 ↔ _memory_store st !! rid = Some f
                   ∧ ¬ created_at f < cutoff_time utcnow max_age_hours.
Proof.
  unfold cleanup_futures, cleanup_old_futures.
  destruct (cutoff_overflows utcnow max_age_hours); simpl.
  - split; [done|]. split; [done|]. split; [|done].
    intros rid r Hr. unfold get_future, _load_from_db.
    destruct (_memory_store st !! rid) as [f|]; [by exists f|].
    rewrite Hr. by eexists.
  - rewrite foldr_delete_filter.
    split; [done|]. split; [done|]. split.
    + intros rid r Hr. unfold get_future, _load_from_db, set_memory. simpl.
      destruct (filter _ (_memory_store st) !! rid) as [f|]; [by exists f|].
      rewrite Hr. by eexists.
    + split; [done|]. intros rid f. by rewrite map_lookup_filter_Some.
Qed.

(** X19: [cleanup_old_futures] with [max_age_hours = 0] called at a moment
    later than the creation of every future empties the cache and the
    table, and returns the number of cache entries plus the number of
    rows. *)
Theorem cleanup_zero_hours_empties_the_store (now : Z) (st : FuturesStorage) :
  (∀ rid f, _memory_store st !! rid = Some f → created_at f < now) →
  (∀ rid r, futures_table st !! rid = Some r → row_created_at r < now) →
  cleanup_old_futures true now 0 st
  = ({| _memory_store := ∅; futures_table := ∅ |},
     Returns (Z.of_nat (size (_memory_store st))
              + Z.of_nat (size (futures_table st)))).
Proof.
  intros Hmem Htab. unfold cleanup_old_futures.
  rewrite cutoff_overflows_zero.
  rewrite foldr_delete_filter, length_fmap, length_filter_map_to_list.
  unfold cutoff_time. rewrite Z.mul_0_l, Z.sub_0_r.
  assert (filter (λ kv : string * future, ¬ created_at kv.2 < now)
                 (_memory_store st) = ∅) as ->.
  { apply map_empty. intros k. apply map_lookup_filter_None. right.
    intros f Hf. simpl. intros Hn. apply Hn. by eapply Hmem. }
  assert (filter (λ kv : string * row, ¬ row_created_at kv.2 < now)
                 (futures_table st) = ∅) as ->.
  { apply map_empty. intros k. apply map_lookup_filter_None. right.
    intros r Hr. simpl. intros Hn. apply Hn. by eapply Htab. }
  rewrite !map_filter_id; [done| |].
  - intros k r Hr. simpl. by eapply Htab.
  - intros k f Hf. simpl. by eapply Hmem.
Qed.

Lemma cleanup_zero_hours_empties_the_store_witness :
  cleanup_old_futures true 20 0 store_pending
  = ({| _memory_store := ∅; futures_table := ∅ |}, Returns 2).
Proof.
  rewrite (cleanup_zero_hours_empties_the_store 20 store_pending).
  - reflexivity.
  - intros rid f Hf. unfold store_pending, save_future in Hf. simpl in Hf.
    apply lookup_insert_Some in Hf as [[_ <-]|[_ Hf]]; [simpl; lia|].
    rewrite lookup_empty in Hf. discriminate Hf.
  - intros rid r Hr. unfold store_pending, save_future in Hr. simpl in Hr.
    apply lookup_insert_Some in Hr as [[_ <-]|[_ Hr]]; [simpl; lia|].
    rewrite lookup_empty in Hr. discriminate Hr.
Defined.

(** ** Listing and retrieving *)

Lemma run_call_keeps_keyed c st :
  keyed (futures_table st) → keyed (futures_table (run_call c st)).
Proof.
  intros Hk. destruct c as [db t1 t2 rid op pl mid|db now rid s res|db rid];
    simpl.
  - unfold save_future. destruct db; simpl; [|done].
    intros k r Hr. apply lookup_insert_Some in Hr as [[<- <-]|[_ Hr]];
      [done|by apply Hk].
  - unfold update_status, _load_from_db, sql_update.
    destruct (_memory_store st !! rid);
      [|destruct db; [destruct (futures_table st !! rid) as [r0|] eqn:Hr0|]];
      simpl; try done.
    + destruct db; simpl; [|done].
      destruct (futures_table st !! rid) as [r0|] eqn:Hr0; simpl; [|done].
      intros k r Hr. apply lookup_insert_Some in Hr as [[<- <-]|[_ Hr]];
        [simpl; by apply (Hk _ _ Hr0)|by apply Hk].
    + intros k r Hr. apply lookup_insert_Some in Hr as [[<- <-]|[_ Hr]];
        [simpl; by apply (Hk _ _ Hr0)|by apply Hk].
  - by rewrite (proj1 (get_future_reads db rid rid st)).
Qed.

Lemma run_calls_keep_keyed cs st :
  keyed (futures_table st) → keyed (futures_table (run_calls cs st)).
Proof.
  revert st. induction cs as [|c cs IH]; intros st Hk; [done|].
  simpl. apply IH. by apply run_call_keeps_keyed.
Qed.

(** X20: after any sequence of [save_future], [update_status] and
    [get_future] calls on a table in which every row sits under its own
    request id, each future that [list_futures] returns is the future that
    [get_future] returns for its request id once the cache is empty.  The
    list is returned for every limit that is a 64-bit integer; for any other
    limit [OverflowError] is raised. *)
Theorem listed_futures_are_retrievable (cs : list call) (st : FuturesStorage)
    (m s : option string) (limit : Z) :
  keyed (futures_table st) →
  match list_futures true m s limit (run_calls cs st) with
  | Returns l =>
      in_int64 limit = true
      ∧ ∀ f, f ∈ l →
          (get_future true (request_id f) (restart (run_calls cs st))).2
          = Returns (Some f)
  | Raises e => in_int64 limit = false ∧ e = OverflowError
  end.
Proof.
  intros Hk. apply (run_calls_keep_keyed cs) in Hk.
  rewrite list_futures_cases. destruct (in_int64 limit); [|done].
  split; [done|]. intros f Hf.
  apply elem_of_select_rows in Hf as (k & r & Hr & _ & ->).
  rewrite get_future_restart. simpl. rewrite <- (Hk k r Hr) in Hr.
  by rewrite Hr.
Qed.

Lemma listed_futures_are_retrievable_witness :
  match list_futures true None (Some "completed") 100
          (run_calls [CallSave true 10 10 "r1" "save" (JObj []) None;
                      CallUpdate true 20 "r1" "completed" (JNum 1)]
                     (init ∅)) with
  | Returns l =>
      in_int64 100 = true
      ∧ ∀ f, f ∈ l →
          (get_future true (request_id f)
             (restart
                (run_calls [CallSave true 10 10 "r1" "save" (JObj []) None;
                            CallUpdate true 20 "r1" "completed" (JNum 1)]
                           (init ∅)))).2
          = Returns (Some f)
  | Raises e => in_int64 100 = false ∧ e = OverflowError
  end.
Proof.
  apply listed_futures_are_retrievable.
  intros k r Hr. simpl in Hr. rewrite lookup_empty in Hr. discriminate Hr.
Defined.

(** ** APIKeyAuth *)

Lemma split_not_nil sep s : split sep s ≠ [].
Proof.
  destruct s as [|c rest]; simpl; [done|].
  destruct (Ascii.eqb c sep); [done|]. by destruct (split sep rest).
Qed.

Lemma split_no_separator sep s seg :
  seg ∈ split sep s → contains sep seg = false.
Proof.
  revert seg. induction s as [|c rest IH]; intros seg; simpl.
  - intros Hin. apply list_elem_of_singleton in Hin. by subst seg.
  - destruct (Ascii.eqb c sep) eqn:Hc.
    + intros Hin. apply elem_of_cons in Hin as [->|Hin]; [done|by apply IH].
    + destruct (split sep rest) as [|first others] eqn:Hs;
        [by destruct (split_not_nil sep rest)|].
      intros Hin. apply elem_of_cons in Hin as [->|Hin].
      * simpl. rewrite Hc. apply IH. by left.
      * apply IH. by right.
Qed.

Lemma lstrip_contains c s :
  contains c (lstrip s) = true → contains c s = true.
Proof.
  induction s as [|c' rest IH]; simpl; [done|].
  destruct (is_space c'); [|done].
  intros H. rewrite (IH H). by rewrite orb_true_r.
Qed.

Lemma rstrip_contains c s :
  contains c (rstrip s) = true → contains c s = true.
Proof.
  induction s as [|c' rest IH]; simpl; [done|].
  destruct (rstrip rest) as [|c'' kept].
  - destruct (is_space c'); simpl; [done|].
    rewrite orb_false_r. intros ->. done.
  - simpl in *. destruct (Ascii.eqb c' c); [done|]. simpl. apply IH.
Qed.

Lemma rstrip_rstrip s : rstrip (rstrip s) = rstrip s.
Proof.
  induction s as [|c rest IH]; simpl; [done|].
  destruct (rstrip rest) as [|c' kept] eqn:Hr.
  - destruct (is_space c) eqn:Hc; simpl; [done|]. by rewrite Hc.
  - change (rstrip (String c (String c' kept)))
      with (match rstrip (String c' kept) with
            | EmptyString =>
                if is_space c then EmptyString else String c EmptyString
            | kept' => String c kept'
            end).
    by rewrite IH.
Qed.

Lemma lstrip_head s c r : lstrip s = String c r → is_space c = false.
Proof.
  induction s as [|c' rest IH]; simpl; [done|].
  destruct (is_space c') eqn:Hc; [done|]. by intros [= <- <-].
Qed.

Lemma rstrip_head c r :
  is_space c = false → ∃ r', rstrip (String c r) = String c r'.
Proof.
  intros Hc. simpl. destruct (rstrip r); rewrite ?Hc; by eexists.
Qed.

Lemma strip_strip s : strip (strip s) = strip s.
Proof.
  unfold strip. destruct (lstrip s) as [|c r] eqn:Hl; [done|].
  apply lstrip_head in Hl.
  destruct (rstrip_head c r Hl) as [r' Hr]. rewrite Hr.
  cbn [lstrip]. rewrite Hl, <- Hr. apply rstrip_rstrip.
Qed.

Lemma strip_contains c s :
  contains c (strip s) = true → contains c s = true.
Proof. intros H. by apply lstrip_contains, rstrip_contains. Qed.

Lemma nonempty_true s : nonempty s = true ↔ s ≠ EmptyString.
Proof.
  unfold nonempty. rewrite negb_true_iff. apply String.eqb_neq.
Qed.

(** The keys with which [__init__] leaves the set. *)
Lemma valid_keys_init api_key on h k :
  k ∈ valid_keys (APIKeyAuth_init api_key on h)
  ↔ k ≠ EmptyString ∧ ∃ seg, seg ∈ split comma api_key ∧ strip seg = k.
Proof.
  unfold APIKeyAuth_init. simpl.
  destruct (nonempty api_key) eqn:Hne.
  - rewrite elem_of_list_to_set, list_elem_of_fmap. split.
    + intros (seg & -> & Hin). apply list_elem_of_filter in Hin as [Hs Hin].
      split; [by apply nonempty_true|by exists seg].
    + intros (Hk & seg & Hin & <-). exists seg. split; [done|].
      apply list_elem_of_filter. split; [by apply nonempty_true|done].
  - split; [set_solver|]. intros (Hk & seg & Hin & <-).
    unfold nonempty in Hne. apply negb_false_iff, String.eqb_eq in Hne.
    subst api_key. simpl in Hin. apply list_elem_of_singleton in Hin.
    by subst seg.
Qed.

Lemma verify_enabled auth k :
  enabled auth = true →
  verify auth (Some k) = Responds tt
  ↔ k ≠ EmptyString ∧ k ∈ valid_keys auth.
Proof.
  intros Hon. unfold verify, given. rewrite Hon. simpl.
  destruct (String.eqb k EmptyString) eqn:Hk.
  - apply String.eqb_eq in Hk. split; [done|]. by intros [? _].
  - apply String.eqb_neq in Hk. destruct (decide (k ∈ valid_keys auth)).
    + by split.
    + split; [done|]. by intros [_ ?].
Qed.

(** X21: an enabled [APIKeyAuth] built from [api_key] accepts exactly the
    keys that are a piece of [api_key] between commas with the white space
    at its ends removed, the empty pieces left out. *)
Theorem accepted_keys_are_the_stripped_pieces (api_key h k : string) :
  verify (APIKeyAuth_init api_key true h) (Some k) = Responds tt
  ↔ k ≠ EmptyString ∧ ∃ seg, seg ∈ split comma api_key ∧ strip seg = k.
Proof.
  rewrite verify_enabled by done. rewrite valid_keys_init. tauto.
Qed.

(** X22: a key that an enabled [APIKeyAuth] accepts after [__init__] is
    not empty, has no white space at its ends and holds no comma: the key
    of a request is compared as it is sent, so a key sent with a blank
    before or after it is refused. *)
Theorem accepted_key_is_stripped_and_comma_free (api_key h k : string) :
  verify (APIKeyAuth_init api_key true h) (Some k) = Responds tt →
  k ≠ EmptyString ∧ strip k = k ∧ contains comma k = false.
Proof.
  rewrite verify_enabled by done. rewrite valid_keys_init.
  intros (_ & Hk & seg & Hin & <-). split; [done|].
  split; [apply strip_strip|].
  destruct (contains comma (strip seg)) eqn:Hc; [|done].
  apply strip_contains in Hc.
  by rewrite (split_no_separator _ _ _ Hin) in Hc.
Qed.

Lemma accepted_key_is_stripped_and_comma_free_witness :
  "key-two" ≠ EmptyString ∧ strip "key-two" = "key-two"
  ∧ contains comma "key-two" = false.
Proof.
  apply (accepted_key_is_stripped_and_comma_free
           "key-one, key-two ,," "X-API-Key" "key-two").
  vm_compute. reflexivity.
Defined.

Lemma substring_all n s :
  (String.length s ≤ n)%nat → substring 0 n s = s.
Proof.
  revert n. induction s as [|c rest IH]; intros n Hn.
  - by destruct n.
  - destruct n as [|n]; simpl in *; [lia|]. rewrite IH; [done|lia].
Qed.

(** X23: [list_keys] has one entry for each valid key, the first eight
    characters of the key followed by three dots; a key of at most eight
    characters is listed in full. *)
Theorem list_keys_shows_eight_characters (auth : APIKeyAuth) :
  length (list_keys auth) = size (valid_keys auth)
  ∧ (∀ shown, shown ∈ list_keys auth
       ↔ ∃ key, key ∈ valid_keys auth ∧ shown = substring 0 8 key ++ "...")
  ∧ (∀ key, key ∈ valid_keys auth → (String.length key ≤ 8)%nat →
       key ++ "..." ∈ list_keys auth).
Proof.
  unfold list_keys. split; [by rewrite length_fmap|]. split.
  - intros shown. rewrite list_elem_of_fmap.
    split.
    + intros (key & -> & Hin). exists key.
      split; [by apply elem_of_elements|done].
    + intros (key & Hin & ->). exists key.
      split; [done|by apply elem_of_elements].
  - intros key Hin Hlen. apply list_elem_of_fmap. exists key.
    split; [|by apply elem_of_elements].
    unfold masked. by rewrite substring_all.
Qed.

(** X24: [remove_key] returns [True] exactly for a valid key; afterwards
    an enabled [APIKeyAuth] refuses the key, and every other key is judged
    as before.  [add_key] makes its key accepted unless it is the empty
    string, which [verify] takes for a missing key. *)
Theorem keys_added_and_removed (auth : APIKeyAuth) (k : string) :
  enabled auth = true →
  (let '(auth', removed) := remove_key k auth in
   (removed = true ↔ k ∈ valid_keys auth)
   ∧ verify auth' (Some k) ≠ Responds tt
   ∧ ∀ k', k' ≠ k → verify auth' (Some k') = verify auth (Some k'))
  ∧ (verify (add_key k auth) (Some k) = Responds tt ↔ k ≠ EmptyString)
  ∧ ∀ k', k' ≠ k →
      verify (add_key k auth) (Some k') = verify auth (Some k').
Proof.
  intros Hon. split; [|split].
  - unfold remove_key. destruct (decide (k ∈ valid_keys auth)) as [Hin|Hin].
    + split; [done|]. split.
      * rewrite verify_enabled by done. simpl. set_solver.
      * intros k' Hne. unfold verify, given. simpl. rewrite Hon. simpl.
        destruct (String.eqb k' EmptyString); [done|].
        destruct (decide (k' ∈ valid_keys auth ∖ {[k]})) as [H1|H1],
          (decide (k' ∈ valid_keys auth)) as [H2|H2]; try done; set_solver.
    + split; [split; [done|by intros ?]|]. split; [|done].
      rewrite verify_enabled by done. by intros [_ ?].
  - rewrite verify_enabled by done. simpl. set_solver.
  - intros k' Hne. unfold verify, given. simpl. rewrite Hon. simpl.
    destruct (String.eqb k' EmptyString); [done|].
    destruct (decide (k' ∈ {[k]} ∪ valid_keys auth)) as [H1|H1],
      (decide (k' ∈ valid_keys auth)) as [H2|H2]; try done; set_solver.
Qed.

Lemma keys_added_and_removed_witness :
  verify (add_key "k2" (APIKeyAuth_init "k1" true "X-API-Key")) (Some "k2")
  = Responds tt
  ↔ "k2" ≠ EmptyString.
Proof.
  exact (proj1 (proj2 (keys_added_and_removed
                         (APIKeyAuth_init "k1" true "X-API-Key") "k2"
                         eq_refl))).
Defined.

(** X25: the helper [verify_api_key] accepts a request exactly when its key
    is the expected key and not empty; with an empty expected key it refuses
    every request. *)
Theorem verify_api_key_accepts_one_key (x_api_key : option string)
    (valid_api_key : string) :
  verify_api_key x_api_key valid_api_key = Responds tt
  ↔ x_api_key = Some valid_api_key ∧ valid_api_key ≠ EmptyString.
Proof.
  unfold verify_api_key, given. destruct x_api_key as [k|].
  - destruct (String.eqb k EmptyString) eqn:Hk.
    + apply String.eqb_eq in Hk. subst k. split; [done|].
      by intros [[= <-] ?].
    + apply String.eqb_neq in Hk.
      destruct (String.eqb k valid_api_key) eqn:Hv.
      * apply String.eqb_eq in Hv. by subst k.
      * apply String.eqb_neq in Hv. split; [done|]. by intros [[= ->] _].
  - split; [done|]. by intros [? _].
Qed.

(** ** MetadataStorage *)

Lemma dict_lookup_cons k k' v (d : pydict) :
  dict_lookup k ((k', v) :: d)
  = if String.eqb k k' then Some v else dict_lookup k d.
Proof. reflexivity. Qed.

Lemma dict_lookup_set k k' v d :
  dict_lookup k (Metadata.dict_set k' v d)
  = if String.eqb k k' then Some v else dict_lookup k d.
Proof.
  induction d as [|[k0 v0] d IH]; simpl; [done|].
  destruct (String.eqb k' k0) eqn:H0; simpl.
  - apply String.eqb_eq in H0. subst k0. by destruct (String.eqb k k').
  - rewrite IH. destruct (String.eqb k k0) eqn:H1; [|done].
    apply String.eqb_eq in H1. subst k0.
    rewrite String.eqb_sym in H0. by rewrite H0.
Qed.



Lemma leb_refl s : String.leb s s = true.
Proof. by destruct (String.leb_total s s). Qed.

Lemma dict_lookup_insert_item k k' v l :
  dict_lookup k (Metadata.insert_item (k', v) l)
  = if String.eqb k k' then Some v else dict_lookup k l.
Proof.
  induction l as [|[k0 v0] l IH]; simpl; [done|].
  destruct (String.leb k' k0) eqn:Hle; simpl; [done|].
  rewrite IH. destruct (String.eqb k k0) eqn:H0; [|done].
  destruct (String.eqb k k') eqn:H1; [|done].
  apply String.eqb_eq in H0, H1. subst k0 k'. by rewrite leb_refl in Hle.
Qed.

Lemma dict_lookup_sort_items k l :
  dict_lookup k (Metadata.sort_items l) = dict_lookup k l.
Proof.
  induction l as [|[k0 v0] l IH]; simpl; [done|].
  by rewrite dict_lookup_insert_item, IH.
Qed.

Lemma sort_keys_JObj fields :
  Metadata.sort_keys (JObj fields)
  = JObj (Metadata.sort_items (sort_values fields)).
Proof.
  simpl. do 2 f_equal. induction fields as [|[k x] fields IH]; [done|].
  simpl. by rewrite IH.
Qed.

Lemma sort_keys_JArr items :
  Metadata.sort_keys (JArr items) = JArr (map Metadata.sort_keys items).
Proof.
  reflexivity.
Qed.

Lemma dict_lookup_sort_values k l :
  dict_lookup k (sort_values l) = Metadata.sort_keys <$> dict_lookup k l.
Proof.
  induction l as [|[k0 v0] l IH]; simpl; [done|].
  by destruct (String.eqb k k0).
Qed.

(** Reading a key of a dict that was written with [sort_keys=True]. *)
Lemma dict_lookup_written k d mtime :
  ∃ d', Metadata.content (Metadata.write_json (JObj d) mtime) = Some (JObj d')
    ∧ d' = Metadata.sort_items (sort_values d)
    ∧ dict_lookup k d' = Metadata.sort_keys <$> dict_lookup k d.
Proof.
  unfold Metadata.write_json. rewrite sort_keys_JObj. simpl.
  eexists. split; [done|]. split; [done|].
  by rewrite dict_lookup_sort_items, dict_lookup_sort_values.
Qed.

Lemma insert_item_sorted x l :
  Sorted key_le l → Sorted key_le (Metadata.insert_item x l).
Proof.
  induction 1 as [|y l Hl IH Hhd]; simpl.
  - by repeat constructor.
  - destruct (String.leb x.1 y.1) eqn:Hle.
    + constructor; [by constructor|by constructor].
    + constructor; [done|].
      assert (key_le y x) as Hyx.
      { unfold key_le. destruct (String.leb_total x.1 y.1); congruence. }
      destruct Hhd as [|z l Hz]; simpl; [by constructor|].
      destruct (String.leb x.1 z.1); by constructor.
Qed.

Lemma sort_items_sorted l : Sorted key_le (Metadata.sort_items l).
Proof.
  induction l as [|x l IH]; simpl; [constructor|by apply insert_item_sorted].
Qed.

Lemma sort_items_id l : Sorted key_le l → Metadata.sort_items l = l.
Proof.
  induction 1 as [|x l Hl IH Hhd]; simpl; [done|].
  rewrite IH. destruct Hhd as [|y l Hy]; simpl; [done|].
  unfold key_le in Hy. by rewrite Hy.
Qed.

Lemma sort_values_insert_item x l :
  sort_values (Metadata.insert_item x l)
  = Metadata.insert_item (x.1, Metadata.sort_keys x.2) (sort_values l).
Proof.
  induction l as [|y l IH]; simpl; [done|].
  destruct (String.leb x.1 y.1); simpl; [done|]. by rewrite IH.
Qed.

Lemma sort_values_sort_items l :
  sort_values (Metadata.sort_items l) = Metadata.sort_items (sort_values l).
Proof.
  induction l as [|x l IH]; simpl; [done|].
  by rewrite sort_values_insert_item, IH.
Qed.

(** Writing what was read writes the same text again. *)
Lemma sort_keys_idemp v :
  Metadata.sort_keys (Metadata.sort_keys v) = Metadata.sort_keys v.
Proof.
  induction v as [|b|n|s|items IH|fields IH] using json_nested_ind;
    try reflexivity.
  - rewrite !sort_keys_JArr. f_equal. rewrite map_map.
    induction IH as [|x items Hx _ IHitems]; simpl; [done|].
    by rewrite Hx, IHitems.
  - rewrite !sort_keys_JObj. f_equal.
    rewrite sort_values_sort_items.
    assert (sort_values (sort_values fields) = sort_values fields) as ->.
    { induction IH as [|[k x] fields Hx _ IHfields]; simpl; [done|].
      simpl in Hx. by rewrite Hx, IHfields. }
    apply sort_items_id, sort_items_sorted.
Qed.




Lemma checkpoint_metadata_lookup now model name data k :
  dict_lookup k (Metadata.checkpoint_metadata now model name data)
  = if String.eqb k "created_at" then Some (JNum now)
    else if String.eqb k "checkpoint_name" then Some (JStr name)
    else if String.eqb k "model_id" then Some (JStr model)
    else dict_lookup k data.
Proof.
  unfold Metadata.checkpoint_metadata. by rewrite !dict_lookup_set.
Qed.

Lemma checkpoint_file_saved b now mtime model name data st model' name' :
  Metadata.checkpoint_file model' name'
    (Metadata.save_checkpoint b now mtime model name data st).1
  = if decide (b = true ∧ model' = model ∧ name' = name)
    then Some (Metadata.write_json
                 (JObj (Metadata.checkpoint_metadata now model name data))
                 mtime)
    else Metadata.checkpoint_file model' name' st.
Proof.
  unfold Metadata.save_checkpoint, Metadata.checkpoint_file.
  destruct b; cbn [fst Metadata.checkpoints];
    [|rewrite decide_False; [done|by intros [? _]]].
  destruct (decide (model' = model)) as [->|Hm].
  - rewrite lookup_insert_eq. simpl.
    destruct (decide (name' = name)) as [->|Hn].
    + rewrite lookup_insert_eq. by rewrite decide_True.
    + rewrite lookup_insert_ne by done.
      rewrite decide_False by (by intros (_ & _ & ?)).
      by destruct (Metadata.checkpoints st !! model).
  - rewrite lookup_insert_ne by done.
    by rewrite decide_False by (by intros (_ & ? & _)).
Qed.

Lemma checkpoint_file_deleted model name st st' model' name' :
  Metadata.delete_checkpoint true model name st = (st', Returns true) →
  Metadata.checkpoint_file model' name' st'
  = if decide (model' = model ∧ name' = name) then None
    else Metadata.checkpoint_file model' name' st.
Proof.
  unfold Metadata.delete_checkpoint, Metadata.checkpoint_file.
  destruct (Metadata.checkpoints st !! model) as [dir|] eqn:Hdir; [|done].
  destruct (dir !! name) as [f|] eqn:Hf; [|done].
  intros [= <-]. simpl.
  destruct (decide (model' = model)) as [->|Hm].
  - rewrite Hdir. simpl. destruct (decide (delete name dir = ∅)) as [He|He].
    + rewrite lookup_delete_eq. simpl.
      destruct (decide (model = model ∧ name' = name)) as [|Hn]; [done|].
      assert (name' ≠ name) as Hn' by (intros ->; by apply Hn).
      by rewrite <- (lookup_delete_ne dir name name'), He.
    + rewrite lookup_insert_eq. simpl.
      destruct (decide (name' = name)) as [->|Hn].
      * rewrite lookup_delete_eq. by rewrite decide_True.
      * rewrite lookup_delete_ne by done.
        by rewrite decide_False by (by intros [_ ?]).
  - destruct (decide (model' = model ∧ name' = name)) as [[? _]|_]; [done|].
    destruct (decide (delete name dir = ∅));
      by rewrite ?lookup_delete_ne, ?lookup_insert_ne.
Qed.

(** X27: after [save_checkpoint], [load_checkpoint] returns the data with
    [model_id] and [checkpoint_name] set to the arguments and [created_at]
    to the clock reading, whatever the data said for these keys.  A
    following [delete_checkpoint] returns [True] and leaves no file for the
    checkpoint; the directory that [save_checkpoint] made for a model
    without checkpoints is removed again.  Neither call touches the file of
    another checkpoint.  This is so for a model id that is the name of a
    directory entry and a checkpoint name without a slash. *)
Theorem checkpoint_saved_loaded_deleted (st : Metadata.MetadataStorage)
    (now mtime : Z) (model name : string) (data : pydict) :
  is_file_name model = true →
  is_name_stem name = true →
  let st1 := (Metadata.save_checkpoint true now mtime model name data st).1 in
  (∃ d, Metadata.load_checkpoint true model name st1 = Some (JObj d)
     ∧ dict_lookup "model_id" d = Some (JStr model)
     ∧ dict_lookup "checkpoint_name" d = Some (JStr name)
     ∧ dict_lookup "created_at" d = Some (JNum now)
     ∧ ∀ k, k ≠ "model_id" → k ≠ "checkpoint_name" → k ≠ "created_at" →
         dict_lookup k d = Metadata.sort_keys <$> dict_lookup k data)
  ∧ (∀ model' name', (model', name') ≠ (model, name) →
       Metadata.checkpoint_file model' name' st1
       = Metadata.checkpoint_file model' name' st)
  ∧ ∃ st2,
      Metadata.delete_checkpoint true model name st1 = (st2, Returns true)
      ∧ Metadata.load_checkpoint true model name st2 = None
      ∧ (∀ model' name', (model', name') ≠ (model, name) →
           Metadata.checkpoint_file model' name' st2
           = Metadata.checkpoint_file model' name' st)
      ∧ (Metadata.checkpoints st !! model = None →
         Metadata.checkpoints st2 !! model = None).
Proof.
  intros _ _ st1. split; [|split].
  - unfold Metadata.load_checkpoint, st1.
    rewrite checkpoint_file_saved, decide_True by done.
    unfold Metadata.write_json. cbn [Metadata.content].
    rewrite sort_keys_JObj. eexists. split; [reflexivity|].
    repeat split;
      try (by rewrite dict_lookup_sort_items, dict_lookup_sort_values,
             checkpoint_metadata_lookup).
    intros k Hk1 Hk2 Hk3.
    rewrite dict_lookup_sort_items, dict_lookup_sort_values,
      checkpoint_metadata_lookup.
    apply String.eqb_neq in Hk1, Hk2, Hk3. by rewrite Hk1, Hk2, Hk3.
  - intros model' name' Hne. unfold st1.
    rewrite checkpoint_file_saved. apply decide_False.
    intros (_ & -> & ->). by apply Hne.
  - assert (∃ st2, Metadata.delete_checkpoint true model name st1
                   = (st2, Returns true)) as [st2 Hdel].
    { unfold Metadata.delete_checkpoint, st1, Metadata.save_checkpoint.
      cbn [fst Metadata.checkpoints]. rewrite lookup_insert_eq.
      rewrite lookup_insert_eq. by eexists. }
    exists st2. split; [done|]. split; [|split].
    + unfold Metadata.load_checkpoint.
      rewrite (checkpoint_file_deleted _ _ _ _ _ _ Hdel).
      by rewrite decide_True.
    + intros model' name' Hne.
      rewrite (checkpoint_file_deleted _ _ _ _ _ _ Hdel).
      rewrite decide_False by (intros [-> ->]; by apply Hne). unfold st1.
      rewrite checkpoint_file_saved. apply decide_False.
      intros (_ & -> & ->). by apply Hne.
    + intros Hnone. revert Hdel.
      unfold Metadata.delete_checkpoint, st1, Metadata.save_checkpoint.
      cbn [fst Metadata.checkpoints]. rewrite !lookup_insert_eq.
      intros [= <-]. cbn [Metadata.checkpoints]. rewrite Hnone. simpl.
      rewrite delete_insert_eq, decide_True by apply delete_empty.
      apply lookup_delete_eq.
Qed.

(** The checkpoint ["c1"] of model ["m1"], saved and deleted again. *)
Lemma checkpoint_saved_loaded_deleted_witness :
  ∃ st2,
    Metadata.delete_checkpoint true "m1" "c1"
      (Metadata.save_checkpoint true 30 31 "m1" "c1"
         [("path", JStr "tinker://run1/weights/c1")] one_run).1
    = (st2, Returns true)
    ∧ Metadata.load_checkpoint true "m1" "c1" st2 = None.
Proof.
  destruct (checkpoint_saved_loaded_deleted one_run 30 31 "m1" "c1"
              [("path", JStr "tinker://run1/weights/c1")] eq_refl eq_refl)
    as (_ & _ & st2 & Hdel & Hload & _).
  exists st2. split; [exact Hdel|exact Hload].
Defined.


Lemma collect_runs_take m b limit files runs :
  Metadata.collect_runs m b limit files runs
  = (runs ++ take (Z.to_nat limit - length runs)
                  (filter (λ md, run_listed m b md = true)
                          (omap Metadata.content files)))%list.
Proof.
  revert runs. induction files as [|f files IH]; intros runs; simpl.
  - destruct (Z.to_nat limit - _)%nat; by rewrite app_nil_r.
  - destruct (Z.of_nat (length runs) >=? limit) eqn:Hfull.
    + replace (Z.to_nat limit - length runs)%nat with 0%nat by lia.
      by rewrite take_0, app_nil_r.
    + destruct (Metadata.content f) as [md|]; [|apply IH].
      rewrite filter_cons.
      destruct (decide (run_listed m b md = true)) as [Hl|Hl];
        unfold run_listed in Hl;
        destruct (Metadata.passes m "model_id" md) as [[|]|];
        try done; try apply IH;
        destruct (Metadata.passes b "base_model" md) as [[|]|];
        try done; try apply IH.
      rewrite IH, length_app, <- app_assoc. simpl. f_equal.
      replace (Z.to_nat limit - length runs)%nat
        with (S (Z.to_nat limit - (length runs + 1)))%nat by lia.
      done.
Qed.

#[local] Instance newest_file_first_total : Total Metadata.newest_file_first.
Proof. intros f1 f2. unfold Metadata.newest_file_first. lia. Qed.

#[local] Instance newest_file_first_trans :
  Transitive Metadata.newest_file_first.
Proof. intros f1 f2 f3. unfold Metadata.newest_file_first. lia. Qed.


Lemma elem_of_by_mtime (dir : gmap string Metadata.file) f :
  f ∈ Metadata.by_mtime dir ↔ ∃ name, dir !! name = Some f.
Proof.
  unfold Metadata.by_mtime.
  rewrite merge_sort_Permutation, list_elem_of_fmap. split.
  - intros ([name f'] & -> & Hin). exists name.
    by apply elem_of_map_to_list.
  - intros [name Hf]. exists (name, f). split; [done|].
    by apply elem_of_map_to_list.
Qed.


(** X29: [cleanup_model_data] leaves no checkpoint of the model and no
    training run whose file is a dict with that [model_id]; the checkpoints
    of other models and all other training run files stay, among them the
    files that are not JSON or hold no dict.  It returns [True] exactly
    when the model had a checkpoint directory or such a training run.  This
    is so for a model id that is the name of a directory entry. *)
Theorem cleanup_model_data_removes_the_model (st : Metadata.MetadataStorage)
    (model : string) :
  is_file_name model = true →
  let '(st', cleaned) := Metadata.cleanup_model_data true model st in
  (∀ limit, Metadata.list_checkpoints model limit st' = [])
  ∧ (∀ b name, Metadata.load_checkpoint b model name st' = None)
  ∧ (∀ model', model' ≠ model →
       Metadata.checkpoints st' !! model' = Metadata.checkpoints st !! model')
  ∧ (∀ id f, Metadata.training_runs st' !! id = Some f
             ↔ Metadata.training_runs st !! id = Some f
               ∧ Metadata.run_of_model model f = false)
  ∧ (∀ m b limit d, JObj d ∈ Metadata.list_training_runs m b limit st' →
       dict_lookup "model_id" d ≠ Some (JStr model))
  ∧ (cleaned = true
     ↔ is_Some (Metadata.checkpoints st !! model)
       ∨ ∃ id f, Metadata.training_runs st !! id = Some f
                 ∧ Metadata.run_of_model model f = true).
Proof.
  intros _. unfold Metadata.cleanup_model_data.
  set (kept := filter (λ kv : string * Metadata.file,
                         Metadata.run_of_model model kv.2 ≠ true)
                      (Metadata.training_runs st)).
  assert (∀ id f, kept !! id = Some f
                  ↔ Metadata.training_runs st !! id = Some f
                    ∧ Metadata.run_of_model model f = false) as Hkept.
  { intros id f. unfold kept. rewrite map_lookup_filter_Some. simpl.
    by rewrite not_true_iff_false. }
  split; [|split; [|split; [|split; [|split]]]].
  - intros limit. unfold Metadata.list_checkpoints. simpl.
    by rewrite lookup_delete_eq.
  - intros b name. unfold Metadata.load_checkpoint, Metadata.checkpoint_file.
    simpl. by rewrite lookup_delete_eq.
  - intros model' Hne. simpl. by rewrite lookup_delete_ne.
  - exact Hkept.
  - intros m b limit d Hin. unfold Metadata.list_training_runs in Hin.
    rewrite collect_runs_take in Hin. simpl in Hin.
    apply elem_of_take in Hin as (i & Hin & _).
    apply list_elem_of_lookup_2, list_elem_of_filter in Hin as [_ Hin].
    apply list_elem_of_omap in Hin as (f & Hf & Hc).
    apply elem_of_by_mtime in Hf as [id Hf].
    apply Hkept in Hf as [_ Hrun]. unfold Metadata.run_of_model in Hrun.
    rewrite Hc in Hrun. unfold dict_get in Hrun. intros Hm.
    rewrite Hm in Hrun. simpl in Hrun. by rewrite String.eqb_refl in Hrun.
  - rewrite orb_true_iff, bool_decide_eq_true, negb_true_iff,
      bool_decide_eq_false.
    apply or_iff_compat_l. split.
    + intros Hne. apply map_choose in Hne as (id & f & Hf).
      apply map_lookup_filter_Some in Hf as [Hf Hrun]. by exists id, f.
    + intros (id & f & Hf & Hrun) He.
      assert (filter (λ kv : string * Metadata.file,
                        Metadata.run_of_model model kv.2 = true)
                     (Metadata.training_runs st) !! id = Some f) as Hin
        by (by apply map_lookup_filter_Some).
      by rewrite He in Hin.
Qed.

(** The model ["m1"] has a training run and no checkpoint. *)
Lemma cleanup_model_data_removes_the_model_witness :
  (Metadata.cleanup_model_data true "m1" one_run).2 = true
  ↔ is_Some (Metadata.checkpoints one_run !! "m1")
    ∨ ∃ id f, Metadata.training_runs one_run !! id = Some f
              ∧ Metadata.run_of_model "m1" f = true.
Proof.
  pose proof (cleanup_model_data_removes_the_model one_run "m1" eq_refl) as H.
  destruct (Metadata.cleanup_model_data true "m1" one_run) as [st' cleaned].
  destruct H as (_ & _ & _ & _ & _ & H). exact H.
Defined.

(** ** CheckpointService *)

Lemma saved_checkpoint_lookup now mtime model name data st k :
  ∃ d, Metadata.load_checkpoint true model name
         (Metadata.save_checkpoint true now mtime model name data st).1
       = Some (JObj d)
    ∧ dict_lookup k d
      = Metadata.sort_keys <$>
          dict_lookup k (Metadata.checkpoint_metadata now model name data).
Proof.
  unfold Metadata.load_checkpoint.
  rewrite checkpoint_file_saved, decide_True by done.
  unfold Metadata.write_json. cbn [Metadata.content].
  rewrite sort_keys_JObj. eexists. split; [reflexivity|].
  by rewrite dict_lookup_sort_items, dict_lookup_sort_values.
Qed.

(** X30: [save_weights] files the metadata under the name of the
    checkpoint, [save_weights_for_sampler] under ["sampler_"] followed by
    the name.  So a sampler checkpoint [n] saved after a manual checkpoint
    named ["sampler_" + n] of the same model replaces its metadata: the
    file then has type ["sampler"], and the model has as many checkpoint
    files as before.  In both files [created_at] is the clock reading of
    [save_checkpoint], not the one that the service passes. *)
Theorem sampler_checkpoint_replaces_manual_one (gen : string → Z)
    (t1 n1 u1 m1 t2 n2 u2 m2 : Z) (model n run_id : string)
    (clients : gmap string client_info) (client : client_info)
    (st : Metadata.MetadataStorage) :
  clients !! model = Some client →
  train_group client = true →
  training_run_id client = Some run_id →
  n ≠ EmptyString →
  let st1 := (save_weights gen true t1 n1 u1 m1 (Returns tt) model
                           ("sampler_" ++ n) clients st).1 in
  let st2 := (save_weights_for_sampler gen true t2 n2 u2 m2 (Returns tt)
                                       model n clients st1).1 in
  (∃ d, Metadata.load_checkpoint true model ("sampler_" ++ n) st1
        = Some (JObj d)
     ∧ dict_lookup "type" d = Some (JStr "manual_save")
     ∧ dict_lookup "created_at" d = Some (JNum u1))
  ∧ (∃ d, Metadata.load_checkpoint true model ("sampler_" ++ n) st2
          = Some (JObj d)
       ∧ dict_lookup "type" d = Some (JStr "sampler")
       ∧ dict_lookup "created_at" d = Some (JNum u2))
  ∧ size (default ∅ (Metadata.checkpoints st2 !! model))
    = size (default ∅ (Metadata.checkpoints st1 !! model)).
Proof.
  intros Hc Hg Hr Hn st1 st2.
  apply nonempty_true in Hn.
  assert (st1 = (Metadata.save_checkpoint true u1 m1 model ("sampler_" ++ n)
                   [("path", JStr ("tinker://" ++ run_id ++ "/weights/"
                                   ++ "sampler_" ++ n));
                    ("created_at", JNum n1);
                    ("type", JStr "manual_save")] st).1) as Hst1.
  { unfold st1, save_weights. by rewrite Hc, Hg, Hr. }
  assert (∃ data, st2 = (Metadata.save_checkpoint true u2 m2 model
                           ("sampler_" ++ n) data st1).1
                  ∧ dict_lookup "type" data = Some (JStr "sampler"))
    as (data & Hst2 & Hty).
  { unfold st2, save_weights_for_sampler. rewrite Hc, Hg, Hn. simpl.
    eexists. split; reflexivity. }
  split; [|split].
  - rewrite Hst1.
    destruct (saved_checkpoint_lookup u1 m1 model ("sampler_" ++ n)
                [("path", JStr ("tinker://" ++ run_id ++ "/weights/"
                                ++ "sampler_" ++ n));
                 ("created_at", JNum n1); ("type", JStr "manual_save")]
                st "type") as (d & Hd & Hty1).
    exists d. split; [done|]. split; [by rewrite Hty1|].
    destruct (saved_checkpoint_lookup u1 m1 model ("sampler_" ++ n)
                [("path", JStr ("tinker://" ++ run_id ++ "/weights/"
                                ++ "sampler_" ++ n));
                 ("created_at", JNum n1); ("type", JStr "manual_save")]
                st "created_at") as (d' & Hd' & Hca).
    rewrite Hd in Hd'. injection Hd' as <-.
    by rewrite Hca, checkpoint_metadata_lookup.
  - rewrite Hst2.
    destruct (saved_checkpoint_lookup u2 m2 model ("sampler_" ++ n) data st1
                "type") as (d & Hd & Hty2).
    exists d. split; [done|]. split.
    + by rewrite Hty2, checkpoint_metadata_lookup, Hty.
    + destruct (saved_checkpoint_lookup u2 m2 model ("sampler_" ++ n) data
                  st1 "created_at") as (d' & Hd' & Hca).
      rewrite Hd in Hd'. injection Hd' as <-.
      by rewrite Hca, checkpoint_metadata_lookup.
  - rewrite Hst2. unfold Metadata.save_checkpoint at 1.
    cbn [fst Metadata.checkpoints]. rewrite lookup_insert_eq. simpl.
    rewrite Hst1. unfold Metadata.save_checkpoint.
    cbn [fst Metadata.checkpoints]. rewrite lookup_insert_eq. simpl.
    by rewrite insert_insert_eq, !map_size_insert.
Qed.

Lemma sampler_checkpoint_replaces_manual_one_witness :
  ∃ d, Metadata.load_checkpoint true "m1" "sampler_a"
         (save_weights_for_sampler (λ _, 7) true 200 201 202 203 (Returns tt)
            "m1" "a" {["m1" := ClientInfo true (Some "run1")]}
            (save_weights (λ _, 7) true 100 101 102 103 (Returns tt)
               "m1" "sampler_a" {["m1" := ClientInfo true (Some "run1")]}
               one_run).1).1
       = Some (JObj d)
    ∧ dict_lookup "type" d = Some (JStr "sampler")
    ∧ dict_lookup "created_at" d = Some (JNum 202).
Proof.
  destruct (sampler_checkpoint_replaces_manual_one
              (λ _, 7) 100 101 102 103 200 201 202 203 "m1" "a" "run1"
              {["m1" := ClientInfo true (Some "run1")]}
              (ClientInfo true (Some "run1")) one_run) as (_ & H & _).
  - vm_compute. reflexivity.
  - reflexivity.
  - reflexivity.
  - discriminate.
  - exact H.
Defined.
